(** * LeadOwl Reddit monitor: rate limiter, retrying executor, client and collector

    A shallow embedding of [rate-limiter.ts], [reddit-client.ts] and
    [collector.ts], and the properties the design document states about them.

    Conventions of the embedding.
    - A JavaScript [number] that holds a quantity (tokens, rates, delays,
      limits) is a rational [Q]: the arithmetic of the source is carried out
      exactly, without the rounding of IEEE doubles.  [Date.now()] is an
      integer number of milliseconds, a [Z].  The bucket is given a second
      time, in [Rounded], with a rounding after each operation; what is
      stated of the bounds of the count is stated there, for every rounding
      that keeps the order.
    - A JavaScript string is a [string] of 8-bit characters; [toLowerCase]
      maps the letters [A-Z] to [a-z] and leaves every other character alone;
      [length] counts characters.
    - Code that awaits, throws or talks to the network is written in explicit
      state-passing style: every read of the clock is an argument, every
      effect is either a component of the state or an entry of an event log,
      and a thrown error is a value of a result type. *)

From Stdlib Require Import ZArith QArith Qround Qminmax Qpower Lqa Lia.
From Stdlib Require Import String Ascii List DecimalString.
From stdpp Require Import base gmap sets list strings.

Local Open Scope Q_scope.
Set Warnings "-clear-no-such-hyp".

(** ** rate-limiter.ts *)

Module RateLimiter.

(** [interface RateLimitConfig] of types.ts. *)
Record RateLimitConfig : Type := {
  requestsPerMinute : Q;
  burstLimit : Q;
  backoffMultiplier : Q;
  maxBackoffMs : Q;
  maxRetries : Q
}.

Definition DEFAULT_RATE_LIMIT_CONFIG : RateLimitConfig := {|
  requestsPerMinute := 30;
  burstLimit := 10;
  backoffMultiplier := 2;
  maxBackoffMs := 5 * 60 * 1000;
  maxRetries := 3
|}.

(** The two mutable fields of [class RateLimiter]; the read-only [config]
    is passed next to the state. *)
Record State : Type := {
  tokens : Q;
  lastRefill : Z
}.

(** [constructor]: a full bucket, stamped with the current time. *)
Definition new (config : RateLimitConfig) (now : Z) : State :=
  {| tokens := burstLimit config; lastRefill := now |}.

(** [refillTokens()], where [now] is what [Date.now()] returns. *)
Definition refillTokens (config : RateLimitConfig) (now : Z) (st : State) : State :=
  let elapsedMs := (now - lastRefill st)%Z in
  let elapsedMinutes := inject_Z elapsedMs / 60000 in
  let newTokens := elapsedMinutes * requestsPerMinute config in
  {| tokens := Qmin (burstLimit config) (tokens st + newTokens);
     lastRefill := now |}.

(** [this.tokens -= 1]. *)
Definition consume (st : State) : State :=
  {| tokens := tokens st - 1; lastRefill := lastRefill st |}.

(** The wait computed by [waitForToken] when the bucket holds less than
    one token. *)
Definition msToWait (config : RateLimitConfig) (st : State) : Z :=
  let tokensNeeded := 1 - tokens st in
  let minutesToWait := tokensNeeded / requestsPerMinute config in
  Qceiling (minutesToWait * 60000).

(** [waitForToken()] runs in one or two uninterrupted segments, separated
    by its [await this.sleep(msToWait)].  The first segment refills and
    either consumes a token and returns ([None]) or asks for a sleep
    ([Some ms]). *)
Definition waitForToken_begin (config : RateLimitConfig) (now : Z) (st : State)
  : option Z * State :=
  let st1 := refillTokens config now st in
  if Qle_bool 1 (tokens st1) then (None, consume st1)
  else (Some (msToWait config st1), st1).

(** The second segment, run when the sleep returns, at time [wake]. *)
Definition waitForToken_resume (config : RateLimitConfig) (wake : Z) (st : State) : State :=
  consume (refillTokens config wake st).


(** [Math.pow(base, attempt)] for a natural exponent. *)
Fixpoint pow (base : Q) (attempt : nat) : Q :=
  match attempt with
  | O => 1
  | S n => base * pow base n
  end.

(** [getBackoffDelay(attempt)]. *)
Definition getBackoffDelay (config : RateLimitConfig) (attempt : nat) : Q :=
  let baseDelay := 1000 in
  let delay := baseDelay * pow (backoffMultiplier config) attempt in
  Qmin delay (maxBackoffMs config).

Definition Qlt_bool (a b : Q) : bool := negb (Qle_bool b a).

(** [shouldRetry(attempt)]. *)
Definition shouldRetry (config : RateLimitConfig) (attempt : nat) : bool :=
  Qlt_bool (inject_Z (Z.of_nat attempt)) (maxRetries config).

(** [handleRateLimitResponse(retryAfterSeconds?)]: the time it sleeps and
    the state it leaves.  The argument is [None] for [undefined] (and for
    [NaN]); a zero is falsy as well. *)
Definition handleRateLimitResponse (config : RateLimitConfig)
    (retryAfterSeconds : option Q) (st : State) : Q * State :=
  let waitMs :=
    match retryAfterSeconds with
    | Some s => if Qeq_bool s 0 then maxBackoffMs config else s * 1000
    | None => maxBackoffMs config
    end in
  (waitMs, {| tokens := 0; lastRefill := lastRefill st |}).

(** [getStatus()]: the reported whole tokens and the state it leaves. *)
Definition getStatus (config : RateLimitConfig) (now : Z) (st : State)
  : (Z * Q) * State :=
  let st1 := refillTokens config now st in
  ((Qfloor (tokens st1), requestsPerMinute config), st1).

(** The operations of a limiter, each with the clock readings it makes. *)
Inductive Op : Type :=
| OpWaitForToken (now wake : Z)
| OpHandleRateLimitResponse (retryAfterSeconds : option Q)
| OpGetStatus (now : Z)
| OpRefillTokens (now : Z).

(** The states an operation leaves at its observation points, in order:
    one per uninterrupted segment. *)
Definition observe (config : RateLimitConfig) (o : Op) (st : State) : list State :=
  match o with
  | OpWaitForToken now wake =>
      match waitForToken_begin config now st with
      | (None, st') => [st']
      | (Some _, st') => [st'; waitForToken_resume config wake st']
      end
  | OpHandleRateLimitResponse r => [snd (handleRateLimitResponse config r st)]
  | OpGetStatus now => [snd (getStatus config now st)]
  | OpRefillTokens now => [refillTokens config now st]
  end.

Definition exec (config : RateLimitConfig) (o : Op) (st : State) : State :=
  List.last (observe config o st) st.

(** Every state observed while a sequence of operations runs one after
    the other. *)
Fixpoint trace (config : RateLimitConfig) (ops : list Op) (st : State) : list State :=
  match ops with
  | [] => []
  | o :: rest => observe config o st ++ trace config rest (exec config o st)
  end.



(** The bucket invariant. *)
Definition in_range (config : RateLimitConfig) (st : State) : Prop :=
  0 <= tokens st /\ tokens st <= burstLimit config.

(** A burst of ten, an eleventh acquisition that sleeps two seconds, a
    throttling response and a status query a minute later. *)
Definition sample_ops : list Op :=
  repeat (OpWaitForToken 0 0) 10 ++
  [OpWaitForToken 0 2000; OpHandleRateLimitResponse (Some 60); OpGetStatus 62000].

End RateLimiter.

(** ** rate-limiter.ts: the bucket in rounded arithmetic *)

(** The fields of the limiter are JavaScript numbers, and every arithmetic
    operation on them rounds its exact result to a representable number.
    The bucket is given here a second time with that rounding written out
    at each operation, as a function [round] on the exact results.  The
    subtraction of two clock readings is a subtraction of integers and is
    exact, as are [Math.min] and [Math.ceil], which return one of their
    arguments and an integer; the rounding that returns its argument
    unchanged gives back the bucket of [RateLimiter]. *)
Module Rounded.
Import RateLimiter.

Section Arithmetic.
Variable round : Q -> Q.

(** [refillTokens()]. *)
Definition refillTokens (config : RateLimitConfig) (now : Z) (st : State) : State :=
  let elapsedMs := (now - lastRefill st)%Z in
  let elapsedMinutes := round (inject_Z elapsedMs / 60000) in
  let newTokens := round (elapsedMinutes * requestsPerMinute config) in
  {| tokens := Qmin (burstLimit config) (round (tokens st + newTokens));
     lastRefill := now |}.

(** [this.tokens -= 1]. *)
Definition consume (st : State) : State :=
  {| tokens := round (tokens st - 1); lastRefill := lastRefill st |}.

(** The wait computed by [waitForToken]. *)
Definition msToWait (config : RateLimitConfig) (st : State) : Z :=
  let tokensNeeded := round (1 - tokens st) in
  let minutesToWait := round (tokensNeeded / requestsPerMinute config) in
  Qceiling (round (minutesToWait * 60000)).

(** The two segments of [waitForToken()]. *)
Definition waitForToken_begin (config : RateLimitConfig) (now : Z) (st : State)
  : option Z * State :=
  let st1 := refillTokens config now st in
  if Qle_bool 1 (tokens st1) then (None, consume st1)
  else (Some (msToWait config st1), st1).

Definition waitForToken_resume (config : RateLimitConfig) (wake : Z) (st : State) : State :=
  consume (refillTokens config wake st).

(** [getStatus()]. *)
Definition getStatus (config : RateLimitConfig) (now : Z) (st : State)
  : (Z * Q) * State :=
  let st1 := refillTokens config now st in
  ((Qfloor (tokens st1), requestsPerMinute config), st1).

(** The states an operation leaves at its observation points.
    [handleRateLimitResponse] assigns the constant [0] to the count and does
    no arithmetic on it. *)
Definition observe (config : RateLimitConfig) (o : Op) (st : State) : list State :=
  match o with
  | OpWaitForToken now wake =>
      match waitForToken_begin config now st with
      | (None, st') => [st']
      | (Some _, st') => [st'; waitForToken_resume config wake st']
      end
  | OpHandleRateLimitResponse r => [snd (handleRateLimitResponse config r st)]
  | OpGetStatus now => [snd (getStatus config now st)]
  | OpRefillTokens now => [refillTokens config now st]
  end.

Definition exec (config : RateLimitConfig) (o : Op) (st : State) : State :=
  List.last (observe config o st) st.

Fixpoint trace (config : RateLimitConfig) (ops : list Op) (st : State) : list State :=
  match ops with
  | [] => []
  | o :: rest => observe config o st ++ trace config rest (exec config o st)
  end.

End Arithmetic.

(** What is assumed of the rounding: it keeps the order of the exact
    results, and it leaves a representable number as it is. *)
Definition monotone (round : Q -> Q) : Prop :=
  forall x y : Q, x <= y -> round x <= round y.

Definition representable (round : Q -> Q) (x : Q) : Prop :=
  round x == x.

(** No rounding at all: exact arithmetic. *)
Definition exact (x : Q) : Q := x.

(** A coarse rounding, down to the next multiple of 1/1024. *)
Definition to_grid (x : Q) : Q := inject_Z (Qfloor (x * 1024)) / 1024.

(** A burst of ten at time 0 and an eleventh acquisition at time 6 that
    sleeps until [wake]. *)
Definition eleven (wake : Z) : list Op :=
  repeat (OpWaitForToken 0 0) 10 ++ [OpWaitForToken 6 wake].

End Rounded.

(** ** rate-limiter.ts: the retrying executor *)

Module Executor.
Import RateLimiter.

(** What a task can throw: [class RateLimitError] with its optional
    [retryAfter], or any other [Error]. *)
Inductive Failure : Type :=
| RateLimitError (message : string) (retryAfter : option Q)
| OtherError (message : string).

(** How a promise settles. *)
Inductive Outcome (T : Type) : Type :=
| Resolved (value : T)
| Rejected (error : Failure).
Arguments Resolved {T} value.
Arguments Rejected {T} error.

(** The task [fn] is an effectful thunk; what the executor sees of it is
    how its first, second, ... invocation settles. *)
Definition Task (T : Type) : Type := nat -> Outcome T.

(** The effects of the executor, in the order they happen. *)
Inductive Event : Type :=
| EvWaitForToken                                  (* await limiter.waitForToken() *)
| EvCall (k : nat)                                (* await fn(), k-th invocation *)
| EvHandleRateLimit (retryAfter : option Q)       (* await limiter.handleRateLimitResponse(..) *)
| EvOnRetry (attempt : nat) (error : Failure)     (* options?.onRetry?.(attempt, lastError) *)
| EvBackoff (delay : Q).                          (* await setTimeout(delay) *)

Record Run (T : Type) : Type := {
  result : Outcome T;
  calls : nat;
  log : list Event
}.
Arguments result {T} r.
Arguments calls {T} r.
Arguments log {T} r.

Definition after {T : Type} (events : list Event) (r : Run T) : Run T :=
  {| result := result r; calls := calls r; log := events ++ log r |}.

(** The [for] loop of [withRateLimit], entered with the loop variable
    [attempt], with [invoked] invocations of [fn] made so far and with the
    current [lastError].  [fuel] bounds the iterations; [None] is running
    out of it. *)
Fixpoint loop {T : Type} (fuel : nat) (limiter : RateLimitConfig) (fn : Task T)
    (attempt invoked : nat) (lastError : option Failure) : option (Run T) :=
  if Qle_bool (inject_Z (Z.of_nat attempt)) (maxRetries DEFAULT_RATE_LIMIT_CONFIG) then
    match fuel with
    | O => None
    | S fuel' =>
        option_map (after [EvWaitForToken; EvCall invoked])
          match fn invoked with
          | Resolved value =>
              Some {| result := Resolved value; calls := S invoked; log := [] |}
          | Rejected error =>
              match error with
              | RateLimitError _ retryAfter =>
                  option_map (after [EvHandleRateLimit retryAfter])
                    (loop fuel' limiter fn (S attempt) (S invoked) (Some error))
              | OtherError _ =>
                  if shouldRetry limiter attempt then
                    let delay := getBackoffDelay limiter attempt in
                    option_map (after [EvOnRetry attempt error; EvBackoff delay])
                      (loop fuel' limiter fn (S attempt) (S invoked) (Some error))
                  else
                    Some {| result := Rejected error; calls := S invoked; log := [] |}
              end
          end
    end
  else
    Some {| result :=
              Rejected (match lastError with
                        | Some error => error
                        | None => OtherError "Max retries exceeded"
                        end);
            calls := invoked;
            log := [] |}.

(** [withRateLimit(limiter, fn, options)].  The limiter stands here as its
    configuration, the one part of it that the control flow reads; its calls
    are entries of the log.  The loop is bounded by the module constant, so
    five units of fuel are never used up. *)
Definition withRateLimit {T : Type} (limiter : RateLimitConfig) (fn : Task T)
  : option (Run T) :=
  loop 5 limiter fn 0 0 None.

(** [b] comes right after [a] in [l]. *)
Fixpoint adjacent (a b : Event) (l : list Event) : Prop :=
  match l with
  | x :: (y :: _) as rest => (x = a /\ y = b) \/ adjacent a b rest
  | _ => False
  end.

Definition is_throttled {T : Type} (o : Outcome T) : Prop :=
  match o with
  | Rejected (RateLimitError _ _) => True
  | _ => False
  end.

Definition is_transient {T : Type} (o : Outcome T) : Prop :=
  match o with
  | Rejected (OtherError _) => True
  | _ => False
  end.

(** A task that is throttled forever, run with a limiter that allows no
    retry at all. *)
Definition always_throttled : Task nat :=
  fun _ => Rejected (RateLimitError "Rate limited by Reddit" (Some 60)).

Definition no_retry_config : RateLimitConfig :=
  {| requestsPerMinute := 30; burstLimit := 10; backoffMultiplier := 2;
     maxBackoffMs := 300000; maxRetries := 0 |}.

(** A task that always fails for another reason, run with a limiter
    configured for ten retries. *)
Definition always_failing : Task nat :=
  fun _ => Rejected (OtherError "Reddit API error: 503").

Definition ten_retries_config : RateLimitConfig :=
  {| requestsPerMinute := 30; burstLimit := 10; backoffMultiplier := 2;
     maxBackoffMs := 300000; maxRetries := 10 |}.

End Executor.

(** ** JavaScript strings *)

Module JSString.

Definition lower_char (c : ascii) : ascii :=
  let n := nat_of_ascii c in
  if ((65 <=? n) && (n <=? 90))%nat then ascii_of_nat (n + 32) else c.

(** [s.toLowerCase()]. *)
Fixpoint toLowerCase (s : string) : string :=
  match s with
  | EmptyString => EmptyString
  | String c rest => String (lower_char c) (toLowerCase rest)
  end.

(** [s.startsWith(p)]. *)
Fixpoint startsWith (s p : string) {struct p} : bool :=
  match p with
  | EmptyString => true
  | String a p' =>
      match s with
      | EmptyString => false
      | String b s' => if Ascii.eqb a b then startsWith s' p' else false
      end
  end.

(** [s.includes(p)]: [p] starts at some position of [s]. *)
Fixpoint includes (s p : string) : bool :=
  startsWith s p ||
  match s with
  | EmptyString => false
  | String _ rest => includes rest p
  end.

(** [[...new Set(items)]]: a [Set] keeps its elements in the order in
    which they were first added. *)
Fixpoint spread_Set_from (seen : gset string) (items : list string) : list string :=
  match items with
  | [] => []
  | x :: rest =>
      if decide (x ∈ seen) then spread_Set_from seen rest
      else x :: spread_Set_from ({[x]} ∪ seen) rest
  end.

Definition spread_Set (items : list string) : list string :=
  spread_Set_from ∅ items.

End JSString.

(** ** types.ts *)

(** An item of [RedditSearchResponse.data.children]. *)
Module Listing.
Record t : Type := {
  id : string;
  subreddit : string;
  title : string;
  selftext : string;
  author : string;
  permalink : string;
  created_utc : Q;
  score : Q;
  num_comments : Q
}.
End Listing.

Module RedditPost.
Record t : Type := {
  id : string;
  subreddit : string;
  title : string;
  content : string;
  author : string;
  url : string;
  createdUtc : Q;
  score : Q;
  numComments : Q
}.
End RedditPost.

Module StoredLead.
Record t : Type := {
  id : string;
  sourceId : string;         (* [source] is the constant 'reddit' *)
  sourceUrl : string;
  title : string;
  content : string;
  author : string;
  authorUrl : string;
  matchedKeywords : list string;
  collectedAt : Z;
  sourceCreatedAt : Q
}.
End StoredLead.

Record RedditSearchResponse : Type := {
  children : list Listing.t;
  after : option string
}.

(** ** Asynchronous code that may throw

    A computation takes the state of the world (the network, the clock) and
    leaves a new one, together with the value it resolves to or the error it
    rejects with. *)

Module Async.
Import Executor.

Definition M (W A : Type) : Type := W -> Outcome A * W.

Definition ret {W A : Type} (a : A) : M W A := fun w => (Resolved a, w).

Definition throw {W A : Type} (e : Failure) : M W A := fun w => (Rejected e, w).

Definition bind {W A B : Type} (m : M W A) (k : A -> M W B) : M W B :=
  fun w =>
    match m w with
    | (Resolved a, w') => k a w'
    | (Rejected e, w') => (Rejected e, w')
    end.

(** [try { m } catch (error) { handler }]. *)
Definition try_catch {W A : Type} (m : M W A) (handler : Failure -> M W A) : M W A :=
  fun w =>
    match m w with
    | (Resolved a, w') => (Resolved a, w')
    | (Rejected e, w') => handler e w'
    end.

End Async.

#[global] Instance M_ret (W : Type) : MRet (Async.M W) := @Async.ret W.
#[global] Instance M_bind (W : Type) : MBind (Async.M W) :=
  fun A B k m => Async.bind m k.

(** ** reddit-client.ts *)

Module RedditClient.
Import Executor Async.

Record RedditClientConfig : Type := {
  clientId : string;
  clientSecret : string;
  userAgent : string
}.

(** The fields of [class RedditClient]. *)
Record t : Type := {
  config : RedditClientConfig;
  rateLimiter : RateLimiter.State;
  accessToken : option string;
  tokenExpiry : Z
}.

(** [constructor(config)]: a limiter with the default configuration, no
    token yet. *)
Definition new (config : RedditClientConfig) (now : Z) : t :=
  {| config := config;
     rateLimiter := RateLimiter.new RateLimiter.DEFAULT_RATE_LIMIT_CONFIG now;
     accessToken := None;
     tokenExpiry := 0 |}.

(** [transformPost(data)]. *)
Definition transformPost (data : Listing.t) : RedditPost.t :=
  {| RedditPost.id := Listing.id data;
     RedditPost.subreddit := Listing.subreddit data;
     RedditPost.title := Listing.title data;
     RedditPost.content :=
       if String.eqb (Listing.selftext data) "" then "" else Listing.selftext data;
     RedditPost.author := Listing.author data;
     RedditPost.url := "https://reddit.com" +:+ Listing.permalink data;
     RedditPost.createdUtc := Listing.created_utc data;
     RedditPost.score := Listing.score data;
     RedditPost.numComments := Listing.num_comments data |}.

Inductive TimeRange : Type := hour | day | week | month.

Definition TimeRange_toString (t : TimeRange) : string :=
  match t with
  | hour => "hour" | day => "day" | week => "week" | month => "month"
  end.

Record SearchOptions : Type := {
  timeRange : option TimeRange;
  limit : option Z
}.

Section Search.
Context {W : Type}.

(** [this.request(endpoint)]: authentication and the rate-limited fetch;
    it resolves to the decoded listing or rejects. *)
Variable request : string -> M W RedditSearchResponse.

(** [new URLSearchParams(record).toString()] and [Number.toString()],
    of the platform. *)
Variable URLSearchParams_toString : list (string * string) -> string.
Variable Number_toString : Z -> string.

Definition search_endpoint (query subreddit : string) (timeRange : TimeRange)
    (limit : Z) : string :=
  ("/r/" +:+ subreddit +:+ "/search.json?") +:+
  URLSearchParams_toString
    [("q", query); ("restrict_sr", "true"); ("sort", "new");
     ("t", TimeRange_toString timeRange); ("limit", Number_toString limit)].

(** The body of the [try] block of [search] for one subreddit; it
    resolves to [allPosts] after the [push]. *)
Definition search_subreddit (query : string) (timeRange : TimeRange) (limit : Z)
    (subreddit : string) (allPosts : list RedditPost.t) : M W (list RedditPost.t) :=
  let endpoint := search_endpoint query subreddit timeRange limit in
  response ← request endpoint;
  let posts := List.map transformPost (children response) in
  mret (allPosts ++ posts).

(** The [for (const subreddit of subreddits)] loop with its
    [try]/[catch]: the handler logs and goes on. *)
Fixpoint search_loop (query : string) (timeRange : TimeRange) (limit : Z)
    (subreddits : list string) (allPosts : list RedditPost.t) : M W (list RedditPost.t) :=
  match subreddits with
  | [] => mret allPosts
  | subreddit :: rest =>
      allPosts' ← try_catch
                    (search_subreddit query timeRange limit subreddit allPosts)
                    (fun _error => mret allPosts);
      search_loop query timeRange limit rest allPosts'
  end.

(** [search(query, subreddits, options)]. *)
Definition search (query : string) (subreddits : list string) (options : SearchOptions)
  : M W (list RedditPost.t) :=
  let timeRange := default day (timeRange options) in
  let limit := default 25%Z (limit options) in
  search_loop query timeRange limit subreddits [].

(** What the listing of one subreddit, or its failure, contributes. *)
Definition posts_of (o : Outcome RedditSearchResponse) : list RedditPost.t :=
  match o with
  | Resolved response => List.map transformPost (children response)
  | Rejected _ => []
  end.

(** The requests of a search, issued one after the other whatever the
    earlier ones gave: how each settles, and the world they leave. *)
Fixpoint request_each (query : string) (timeRange : TimeRange) (limit : Z)
    (subreddits : list string) (w : W) : list (Outcome RedditSearchResponse) * W :=
  match subreddits with
  | [] => ([], w)
  | subreddit :: rest =>
      let (o, w') := request (search_endpoint query subreddit timeRange limit) w in
      let (os, w'') := request_each query timeRange limit rest w' in
      (o :: os, w'')
  end.

End Search.

(** [process.env]: a variable that is unset reads as [undefined]; an
    empty string is falsy like [undefined]. *)
Definition Env : Type := gmap string string.

Definition truthy (v : option string) : option string :=
  match v with
  | Some s => if String.eqb s "" then None else Some s
  | None => None
  end.

(** [createRedditClient()]. *)
Definition createRedditClient (env : Env) (now : Z) : Outcome t :=
  let clientId := env !! "REDDIT_CLIENT_ID" in
  let clientSecret := env !! "REDDIT_CLIENT_SECRET" in
  let userAgent :=
    default "LeadOwl/1.0.0 (https://leadowl.techyowls.io)"
            (truthy (env !! "REDDIT_USER_AGENT")) in
  match truthy clientId, truthy clientSecret with
  | Some clientId, Some clientSecret =>
      Resolved (new {| clientId := clientId;
                       clientSecret := clientSecret;
                       userAgent := userAgent |} now)
  | _, _ =>
      Rejected (OtherError
        "Missing REDDIT_CLIENT_ID or REDDIT_CLIENT_SECRET environment variables")
  end.

(** The error [createRedditClient] throws. *)
Definition missing_credentials : Failure :=
  OtherError "Missing REDDIT_CLIENT_ID or REDDIT_CLIENT_SECRET environment variables".

(** A variable is missing when it is unset or set to the empty string. *)
Definition missing (env : Env) (name : string) : Prop :=
  env !! name = None \/ env !! name = Some ""%string.

(** An environment with the two credentials and no user agent. *)
Definition credentials_without_agent : Env :=
  <["REDDIT_CLIENT_ID"%string := "abc"%string]>
    (<["REDDIT_CLIENT_SECRET"%string := "s3cret"%string]> ∅).

End RedditClient.

(** ** collector.ts *)

Module Collector.
Import Executor Async JSString.

Definition MONITORED_SUBREDDITS : list string :=
  ["webdev"; "SaaS"; "startups"; "node"; "reactjs"; "selfhosted";
   "indiehackers"; "programming"; "macapps"; "devops"; "typescript";
   "javascript"].

(** The entries of the object, in the order it lists them. *)
Definition PRODUCT_KEYWORDS : list (string * list string) :=
  [("snapforge",
    ["screenshot api"; "screenshot service"; "webpage capture"; "url to image";
     "website screenshot"; "html to image"; "puppeteer screenshot";
     "playwright screenshot"]);
   ("octa",
    ["mac calculator"; "calculator app mac"; "developer calculator";
     "programmer calculator"; "scientific calculator mac"; "hex calculator";
     "binary calculator"]);
   ("watchowl",
    ["visual monitoring"; "website change detection"; "visual regression";
     "page change alert"; "website diff"]);
   ("docforge",
    ["pdf api"; "html to pdf"; "pdf generation"; "document generation api";
     "invoice pdf api"])].

Definition INTENT_KEYWORDS : list string :=
  ["looking for"; "recommend"; "alternative to"; "best tool for";
   "anyone know"; "need a"; "searching for"].

(** [deduplicatePosts(posts)]: the [filter] callback reads and updates the
    set [seen], which starts empty. *)
Fixpoint deduplicatePosts_from (seen : gset string) (posts : list RedditPost.t)
  : list RedditPost.t :=
  match posts with
  | [] => []
  | post :: rest =>
      if decide (RedditPost.id post ∈ seen) then deduplicatePosts_from seen rest
      else post :: deduplicatePosts_from ({[RedditPost.id post]} ∪ seen) rest
  end.

Definition deduplicatePosts (posts : list RedditPost.t) : list RedditPost.t :=
  deduplicatePosts_from ∅ posts.

(** The two nested [for] loops of [findMatchedKeywords], which push onto
    [matched]. *)
Definition match_keywords (text : string) (keywords : list string)
    (matched : list string) : list string :=
  fold_left
    (fun matched keyword =>
       if includes text (toLowerCase keyword) then matched ++ [keyword] else matched)
    keywords matched.

Definition match_products (text : string) (products : list (string * list string))
    (matched : list string) : list string :=
  fold_left (fun matched product => match_keywords text (snd product) matched)
            products matched.

(** [findMatchedKeywords(post)]. *)
Definition findMatchedKeywords (post : RedditPost.t) : list string :=
  let text := toLowerCase (RedditPost.title post +:+ " " +:+ RedditPost.content post) in
  let matched := match_products text PRODUCT_KEYWORDS [] in
  spread_Set matched.

(** [transformToLead(post)]; [now] is the [new Date()] of [collectedAt]. *)
Definition transformToLead (now : Z) (post : RedditPost.t) : StoredLead.t :=
  let matchedKeywords := findMatchedKeywords post in
  {| StoredLead.id := "reddit_" +:+ RedditPost.id post;
     StoredLead.sourceId := RedditPost.id post;
     StoredLead.sourceUrl := RedditPost.url post;
     StoredLead.title := RedditPost.title post;
     StoredLead.content := RedditPost.content post;
     StoredLead.author := RedditPost.author post;
     StoredLead.authorUrl := "https://reddit.com/u/" +:+ RedditPost.author post;
     StoredLead.matchedKeywords := matchedKeywords;
     StoredLead.collectedAt := now;
     StoredLead.sourceCreatedAt := RedditPost.createdUtc post * 1000 |}.

(** [hasGenuineIntent(lead)]. *)
Definition hasGenuineIntent (lead : StoredLead.t) : bool :=
  let text := toLowerCase (StoredLead.title lead +:+ " " +:+ StoredLead.content lead) in
  let hasIntentKeyword :=
    existsb (fun keyword => includes text keyword) INTENT_KEYWORDS in
  let isQuestion :=
    includes text "?" ||
    startsWith text "how" ||
    startsWith text "what" ||
    startsWith text "which" ||
    startsWith text "any" in
  let hasSubstance :=
    (50 <? String.length (StoredLead.content lead))%nat ||
    (30 <? String.length (StoredLead.title lead))%nat in
  (hasIntentKeyword || isQuestion) && hasSubstance.

(** A post of r/webdev with the given id and title. *)
Definition sample_post (id title : string) : RedditPost.t :=
  {| RedditPost.id := id;
     RedditPost.subreddit := "webdev";
     RedditPost.title := title;
     RedditPost.content := "";
     RedditPost.author := "someone";
     RedditPost.url := "https://reddit.com/r/webdev/comments/" +:+ id;
     RedditPost.createdUtc := 0;
     RedditPost.score := 1;
     RedditPost.numComments := 0 |}.

Section Collect.
Context {W : Type}.

(** [client.search] of the client the collector holds. *)
Variable search :
  RedditClient.t -> string -> list string -> RedditClient.SearchOptions ->
  M W (list RedditPost.t).

(** The loops of [collect] over the products and their keywords. *)
Fixpoint search_keywords (client : RedditClient.t) (keywords : list string)
    (allPosts : list RedditPost.t) : M W (list RedditPost.t) :=
  match keywords with
  | [] => mret allPosts
  | keyword :: rest =>
      posts ← search client keyword MONITORED_SUBREDDITS
                {| RedditClient.timeRange := Some RedditClient.day;
                   RedditClient.limit := Some 25%Z |};
      search_keywords client rest (allPosts ++ posts)
  end.

Fixpoint search_products (client : RedditClient.t)
    (products : list (string * list string)) (allPosts : list RedditPost.t)
  : M W (list RedditPost.t) :=
  match products with
  | [] => mret allPosts
  | (_, keywords) :: rest =>
      allPosts' ← search_keywords client keywords allPosts;
      search_products client rest allPosts'
  end.

(** [collect()]. *)
Definition collect (client : RedditClient.t) (now : Z) : M W (list StoredLead.t) :=
  allPosts ← search_products client PRODUCT_KEYWORDS [];
  let uniquePosts := deduplicatePosts allPosts in
  let leads := List.map (transformToLead now) uniquePosts in
  let filteredLeads := List.filter hasGenuineIntent leads in
  mret filteredLeads.

(** [runCollection()]: [new RedditCollector()] builds the client from
    the environment, then [collect()] runs. *)
Definition runCollection (env : RedditClient.Env) (now : Z) : M W (list StoredLead.t) :=
  match RedditClient.createRedditClient env now with
  | Rejected error => throw error
  | Resolved client => collect client now
  end.

End Collect.

End Collector.

(** ** The design document's wording of the text predicates *)

Module Design.
Import JSString.

(** [p] occurs in [s]; [s] starts with [p]. *)
Definition is_substring (p s : string) : Prop :=
  exists before after, s = before +:+ p +:+ after.

Definition is_prefix (p s : string) : Prop :=
  exists rest, s = p +:+ rest.

(** A piece of [text] is [phrase] up to the case of its letters;
    [text] starts with such a piece.  [phrase] is in lower case. *)
Definition occurs_ignoring_case (phrase text : string) : Prop :=
  exists before middle after,
    text = before +:+ middle +:+ after /\ toLowerCase middle = phrase.

Definition starts_ignoring_case (phrase text : string) : Prop :=
  exists head rest, text = head +:+ rest /\ toLowerCase head = phrase.

(** [s.trim()], for the white space of ASCII. *)
Definition is_space (c : ascii) : bool :=
  let n := nat_of_ascii c in
  ((n =? 32) || ((9 <=? n) && (n <=? 13)))%nat.

Fixpoint trimStart (s : string) : string :=
  match s with
  | EmptyString => EmptyString
  | String c rest => if is_space c then trimStart rest else s
  end.

Fixpoint trimEnd (s : string) : string :=
  match s with
  | EmptyString => EmptyString
  | String c rest =>
      match trimEnd rest with
      | EmptyString => if is_space c then EmptyString else String c EmptyString
      | rest' => String c rest'
      end
  end.

Definition trim (s : string) : string := trimEnd (trimStart s).

Definition QUESTION_WORDS : list string := ["how"; "what"; "which"; "any"].

(** "case-insensitive substring match against a fixed phrase set" *)
Definition hasIntentKeyword (text : string) : Prop :=
  exists phrase, phrase ∈ Collector.INTENT_KEYWORDS /\ occurs_ignoring_case phrase text.

(** "text contains ?, or (after trimming) starts with one of how, what,
    which, any case-insensitively" *)
Definition looksLikeQuestion (text : string) : Prop :=
  is_substring "?" text \/
  exists word, word ∈ QUESTION_WORDS /\ starts_ignoring_case word (trim text).

(** The same without the trimming. *)
Definition looksLikeQuestion_untrimmed (text : string) : Prop :=
  is_substring "?" text \/
  exists word, word ∈ QUESTION_WORDS /\ starts_ignoring_case word text.

(** "content length > 50 OR title length > 30" *)
Definition hasSubstance (lead : StoredLead.t) : Prop :=
  (50 < String.length (StoredLead.content lead))%nat \/
  (30 < String.length (StoredLead.title lead))%nat.

(** The text of a lead: its title, a space, its content. *)
Definition text_of (lead : StoredLead.t) : string :=
  StoredLead.title lead +:+ " " +:+ StoredLead.content lead.

(** A lead whose title starts with a space, and the same without it. *)
Definition indented_question : StoredLead.t :=
  {| StoredLead.id := "reddit_abc";
     StoredLead.sourceId := "abc";
     StoredLead.sourceUrl := "https://reddit.com/r/webdev/comments/abc";
     StoredLead.title := " how to capture a webpage as an image in node";
     StoredLead.content := "";
     StoredLead.author := "someone";
     StoredLead.authorUrl := "https://reddit.com/u/someone";
     StoredLead.matchedKeywords := ["webpage capture"];
     StoredLead.collectedAt := 0;
     StoredLead.sourceCreatedAt := 0 |}.

Definition plain_question : StoredLead.t :=
  {| StoredLead.id := "reddit_abc";
     StoredLead.sourceId := "abc";
     StoredLead.sourceUrl := "https://reddit.com/r/webdev/comments/abc";
     StoredLead.title := "How to capture a webpage as an image in node";
     StoredLead.content := "";
     StoredLead.author := "someone";
     StoredLead.authorUrl := "https://reddit.com/u/someone";
     StoredLead.matchedKeywords := ["webpage capture"];
     StoredLead.collectedAt := 0;
     StoredLead.sourceCreatedAt := 0 |}.

End Design.

(** ** rate-limiter.ts: use of the bucket over time *)

Module Usage.
Import RateLimiter.


Definition is_acquisition (o : Op) : bool :=
  match o with
  | OpWaitForToken _ _ => true
  | _ => false
  end.



End Usage.

(** ** rate-limiter.ts: reading the log of a run *)

Module Attempts.
Import Executor.

Definition is_acquisition (e : Event) : bool :=
  match e with
  | EvWaitForToken => true
  | _ => false
  end.

(** How many times a run awaited [limiter.waitForToken()]. *)
Definition acquired (log : list Event) : nat :=
  length (List.filter is_acquisition log).

(** A task that fails once for another reason and then resolves. *)
Definition fails_once : Task nat :=
  fun k => match k with
           | O => Rejected (OtherError "Reddit API error: 503")
           | S _ => Resolved 7%nat
           end.

End Attempts.

(** ** rate-limiter.ts: the executor and tasks that throw anything *)

(** JavaScript lets a task throw any value, and [withRateLimit] treats a
    falsy one apart: [throw lastError || new Error('Max retries exceeded')]
    replaces it.  The loop is given here a second time for such tasks, with
    its control flow only: how the run settles and how many invocations it
    makes. *)
Module Thrown.
Import RateLimiter Executor.

(** A thrown value: an error, or a falsy value ([undefined], [null], [0],
    [NaN], the empty string or [false]). *)
Inductive Value : Type :=
| Truthy (error : Failure)
| Falsy.

Inductive Settled (T : Type) : Type :=
| Returned (value : T)
| Threw (thrown : Value).
Arguments Returned {T} value.
Arguments Threw {T} thrown.

Definition Task (T : Type) : Type := nat -> Settled T.

Record Run (T : Type) : Type := {
  result : Settled T;
  calls : nat
}.
Arguments result {T} r.
Arguments calls {T} r.

(** The [for] loop of [withRateLimit].  A falsy value is not an instance of
    [RateLimitError], so it takes the branch of [shouldRetry]; thrown from
    inside the loop it is thrown as it is, and left in [lastError] when the
    loop ends it gives way to the error [Max retries exceeded]. *)
Fixpoint loop {T : Type} (fuel : nat) (limiter : RateLimitConfig) (fn : Task T)
    (attempt invoked : nat) (lastError : option Value) : option (Run T) :=
  if Qle_bool (inject_Z (Z.of_nat attempt)) (maxRetries DEFAULT_RATE_LIMIT_CONFIG) then
    match fuel with
    | O => None
    | S fuel' =>
        match fn invoked with
        | Returned value => Some {| result := Returned value; calls := S invoked |}
        | Threw thrown =>
            match thrown with
            | Truthy (RateLimitError _ _) =>
                loop fuel' limiter fn (S attempt) (S invoked) (Some thrown)
            | Truthy (OtherError _) | Falsy =>
                if shouldRetry limiter attempt then
                  loop fuel' limiter fn (S attempt) (S invoked) (Some thrown)
                else
                  Some {| result := Threw thrown; calls := S invoked |}
            end
        end
    end
  else
    Some {| result :=
              Threw (match lastError with
                     | Some (Truthy error) => Truthy error
                     | Some Falsy | None => Truthy (OtherError "Max retries exceeded")
                     end);
            calls := invoked |}.

Definition withRateLimit {T : Type} (limiter : RateLimitConfig) (fn : Task T)
  : option (Run T) :=
  loop 5 limiter fn 0 0 None.

(** The tasks of [Executor], which throw errors only, among these. *)
Definition of_outcome {T : Type} (o : Outcome T) : Settled T :=
  match o with
  | Resolved value => Returned value
  | Rejected error => Threw (Truthy error)
  end.

Definition of_run {T : Type} (r : Executor.Run T) : Run T :=
  {| result := of_outcome (Executor.result r); calls := Executor.calls r |}.

(** A task that throws [undefined] at every invocation. *)
Definition throws_undefined : Task nat := fun _ => Threw Falsy.

End Thrown.

(** ** reddit-client.ts: authentication and requests *)

Module Transport.
Import Executor RedditClient.

(** [interface RedditTokenResponse]; [expires_in] is a whole number of
    seconds. *)
Record RedditTokenResponse : Type := {
  access_token : string;
  token_type : string;
  expires_in : Z;
  scope : string
}.

(** What the code reads of a [Response] of [fetch]: its status, its
    [Retry-After] header ([None] when [headers.get] gives [null]) and how
    [response.json()] settles. *)
Record Response (B : Type) : Type := {
  status : Z;
  retryAfterHeader : option string;
  json : Outcome B
}.
Arguments status {B} r.
Arguments retryAfterHeader {B} r.
Arguments json {B} r.

(** [response.ok]: the status is in the range 200-299. *)
Definition ok {B : Type} (r : Response B) : bool :=
  ((200 <=? status r) && (status r <=? 299))%Z.

(** [parseInt(s, 10)]: leading white space is skipped, a sign is read, then
    decimal digits as far as they go; [None] is [NaN], the result when there
    is no digit.  The white space skipped is that of ASCII, and the integer
    read is exact: this is what JavaScript gives on a text of ASCII
    characters whose integer is within [MAX_SAFE_INTEGER], and the
    statements about it are made of such texts. *)
Definition digit_value (c : ascii) : option Z :=
  let n := nat_of_ascii c in
  if ((48 <=? n) && (n <=? 57))%nat then Some (Z.of_nat (n - 48)) else None.

Fixpoint parse_digits (s : string) (acc : option Z) : option Z :=
  match s with
  | EmptyString => acc
  | String c rest =>
      match digit_value c with
      | Some d => parse_digits rest (Some (10 * default 0 acc + d)%Z)
      | None => acc
      end
  end.

Definition parseInt (s : string) : option Z :=
  match Design.trimStart s with
  | String "-"%char rest => Z.opp <$> parse_digits rest None
  | String "+"%char rest => parse_digits rest None
  | rest => parse_digits rest None
  end.




Section Requests.

(** [Number.toString()] of the platform, for the status in an error
    message. *)
Variable Number_toString : Z -> string.

(** How [authenticate()] ends: it returned at once on a valid token, it
    exchanged the credentials and stored the new token, or it threw. *)
Inductive Authentication : Type :=
| Cached
| Exchanged (client : t)
| AuthenticationFailed (error : Failure).

(** [this.accessToken && Date.now() < this.tokenExpiry]. *)
Definition token_valid (client : t) (now : Z) : bool :=
  match truthy (accessToken client) with
  | Some _ => (now <? tokenExpiry client)%Z
  | None => false
  end.

(** [authenticate()].  [now] is the clock at the test, [exchange] how the
    [POST] to the token endpoint settles and [later] the clock when the
    expiry is computed. *)
Definition authenticate (client : t) (now : Z)
    (exchange : Outcome (Response RedditTokenResponse)) (later : Z) : Authentication :=
  if token_valid client now then Cached
  else
    match exchange with
    | Rejected error => AuthenticationFailed error
    | Resolved response =>
        if negb (ok response) then
          AuthenticationFailed
            (OtherError ("Reddit auth failed: " +:+ Number_toString (status response)))
        else
          match json response with
          | Rejected error => AuthenticationFailed error
          | Resolved data =>
              Exchanged {| config := config client;
                           rateLimiter := rateLimiter client;
                           accessToken := Some (access_token data);
                           tokenExpiry := (later + (expires_in data - 300) * 1000)%Z |}
          end
    end.

(** The client after [authenticate()]. *)
Definition authenticated (client : t) (a : Authentication) : t :=
  match a with
  | Exchanged client' => client'
  | _ => client
  end.

(** The task [request] hands to [withRateLimit]: its [k]-th invocation
    fetches, and throws on a status 429 and on any other status that is not
    a success. *)
Definition fetch_task (fetches : nat -> Outcome (Response RedditSearchResponse))
  : Task RedditSearchResponse :=
  fun k =>
    match fetches k with
    | Rejected error => Rejected error
    | Resolved response =>
        if (status response =? 429)%Z then
          let retryAfter :=
            parseInt (default "60"%string (truthy (retryAfterHeader response))) in
          Rejected (RateLimitError "Rate limited by Reddit" (inject_Z <$> retryAfter))
        else if negb (ok response) then
          Rejected (OtherError ("Reddit API error: " +:+ Number_toString (status response)))
        else json response
    end.

(** What a call of [request] did: [authenticate()] threw, or it left the
    client in some state, after an exchange or not, and the executor ran. *)
Inductive Request : Type :=
| Unauthenticated (error : Failure)
| Executed (client : t) (exchanged : bool) (r : Run RedditSearchResponse).

(** [request(endpoint)]: [authenticate()], then the fetches under
    [withRateLimit] with the client's limiter, which has the default
    configuration.  When [authenticate()] throws, nothing else runs. *)
Definition request (client : t) (now : Z)
    (exchange : Outcome (Response RedditTokenResponse)) (later : Z)
    (fetches : nat -> Outcome (Response RedditSearchResponse)) : option Request :=
  match authenticate client now exchange later with
  | AuthenticationFailed error => Some (Unauthenticated error)
  | Cached =>
      option_map (Executed client false)
        (withRateLimit RateLimiter.DEFAULT_RATE_LIMIT_CONFIG (fetch_task fetches))
  | Exchanged client' =>
      option_map (Executed client' true)
        (withRateLimit RateLimiter.DEFAULT_RATE_LIMIT_CONFIG (fetch_task fetches))
  end.

(** How the promise of [request] settles, how many fetches of the API it
    made, and its sleeps. *)
Definition settled (q : Request) : Outcome RedditSearchResponse :=
  match q with
  | Unauthenticated error => Rejected error
  | Executed _ _ r => result r
  end.

Definition fetched (q : Request) : nat :=
  match q with
  | Unauthenticated _ => 0
  | Executed _ _ r => calls r
  end.

Definition events (q : Request) : list Event :=
  match q with
  | Unauthenticated _ => []
  | Executed _ _ r => log r
  end.

End Requests.

(** The sleeps that a run takes on account of failures, in milliseconds and
    in order: those of [handleRateLimitResponse] and the backoff sleeps.
    What [waitForToken] sleeps is not among them: it depends on the bucket
    and the clock, and the log has only an [EvWaitForToken] entry for each
    of its calls. *)
Fixpoint sleeps (config : RateLimiter.RateLimitConfig) (log : list Event) : list Q :=
  match log with
  | [] => []
  | EvHandleRateLimit retryAfter :: rest =>
      fst (RateLimiter.handleRateLimitResponse config retryAfter
             {| RateLimiter.tokens := 0; RateLimiter.lastRefill := 0 |})
      :: sleeps config rest
  | EvBackoff delay :: rest => delay :: sleeps config rest
  | _ :: rest => sleeps config rest
  end.

(** The hint a response with status 429 gives, and the sleep that
    [handleRateLimitResponse] takes on it with the client's limiter. *)
Definition retry_hint {B : Type} (response : Response B) : option Q :=
  inject_Z <$> parseInt (default "60"%string (truthy (retryAfterHeader response))).

Definition throttle_sleep {B : Type} (response : Response B) : Q :=
  fst (RateLimiter.handleRateLimitResponse RateLimiter.DEFAULT_RATE_LIMIT_CONFIG
         (retry_hint response)
         {| RateLimiter.tokens := 0; RateLimiter.lastRefill := 0 |}).

(** [Number.toString()] of an integer, for the examples. *)
Definition decimal (z : Z) : string := NilZero.string_of_int (Z.to_int z).

(** A token response of one hour, a stale client, and servers that always
    answer 429 without a header, or always 503. *)
Definition hour_token : Response RedditTokenResponse :=
  {| status := 200; retryAfterHeader := None;
     json := Resolved {| access_token := "token"; token_type := "bearer";
                         expires_in := 3600; scope := "*" |} |}.

Definition fresh_client : t :=
  new {| clientId := "abc"; clientSecret := "s3cret";
         userAgent := "LeadOwl/1.0.0 (https://leadowl.techyowls.io)" |} 0.

(** A client that holds a token valid until 3300 s. *)
Definition signed_in : t :=
  {| config := config fresh_client;
     rateLimiter := rateLimiter fresh_client;
     accessToken := Some "token"%string;
     tokenExpiry := 3300000 |}.

Definition empty_listing : RedditSearchResponse := Build_RedditSearchResponse [] None.

Definition always_429 : nat -> Outcome (Response RedditSearchResponse) :=
  fun _ => Resolved {| status := 429; retryAfterHeader := None;
                       json := Resolved empty_listing |}.

Definition throttled_once : nat -> Outcome (Response RedditSearchResponse) :=
  fun k => match k with
           | O => Resolved {| status := 429; retryAfterHeader := Some "7"%string;
                              json := Resolved empty_listing |}
           | S _ => Resolved {| status := 200; retryAfterHeader := None;
                                json := Resolved empty_listing |}
           end.

Definition always_503 : nat -> Outcome (Response RedditSearchResponse) :=
  fun _ => Resolved {| status := 503; retryAfterHeader := None;
                       json := Resolved empty_listing |}.

End Transport.

(** ** collector.ts: the whole run *)

Module Pipeline.
Import Executor Async JSString Collector.

(** [findMatchedProduct(matchedKeywords)]: the two nested loops return at
    the first keyword of the taxonomy that is in the list. *)
Fixpoint findMatchedProduct_in (matchedKeywords : list string)
    (products : list (string * list string)) : option string :=
  match products with
  | [] => None
  | (product, keywords) :: rest =>
      if existsb (fun keyword => bool_decide (keyword ∈ matchedKeywords)) keywords
      then Some product
      else findMatchedProduct_in matchedKeywords rest
  end.

Definition findMatchedProduct (matchedKeywords : list string) : option string :=
  findMatchedProduct_in matchedKeywords PRODUCT_KEYWORDS.

(** All the keywords, in the order of the taxonomy. *)
Definition all_keywords : list string := concat (List.map snd PRODUCT_KEYWORDS).

Section Run.
Context {W : Type}.

(** [this.request] of a client, and the two functions of the platform that
    [search] uses. *)
Variable request : RedditClient.t -> string -> M W RedditSearchResponse.
Variable URLSearchParams_toString : list (string * string) -> string.
Variable Number_toString : Z -> string.

(** [client.search]. *)
Definition client_search (client : RedditClient.t) :=
  RedditClient.search (request client) URLSearchParams_toString Number_toString.

(** Requests made one after the other, whatever the earlier ones gave. *)
Fixpoint perform (client : RedditClient.t) (endpoints : list string) (w : W)
  : list (Outcome RedditSearchResponse) * W :=
  match endpoints with
  | [] => ([], w)
  | endpoint :: rest =>
      let (o, w') := request client endpoint w in
      let (os, w'') := perform client rest w' in
      (o :: os, w'')
  end.

(** The endpoints of the searches for one keyword, and of a whole run. *)
Definition keyword_endpoints (keyword : string) : list string :=
  List.map
    (fun subreddit =>
       RedditClient.search_endpoint URLSearchParams_toString Number_toString
         keyword subreddit RedditClient.day 25)
    MONITORED_SUBREDDITS.

Definition run_endpoints : list string :=
  concat (List.map keyword_endpoints all_keywords).

End Run.

(** A network that is down: every request rejects. *)
Definition offline : RedditClient.t -> string -> M unit RedditSearchResponse :=
  fun _ _ w => (Rejected (OtherError "fetch failed"), w).

Definition no_encoding : list (string * string) -> string := fun _ => ""%string.

(** A post with the given title and content, and a lead made of it. *)
Definition titled (title content : string) : RedditPost.t :=
  {| RedditPost.id := "abc";
     RedditPost.subreddit := "webdev";
     RedditPost.title := title;
     RedditPost.content := content;
     RedditPost.author := "someone";
     RedditPost.url := "https://reddit.com/r/webdev/comments/abc";
     RedditPost.createdUtc := 0;
     RedditPost.score := 1;
     RedditPost.numComments := 0 |}.

(** The text of a post as a bare concatenation of its title and its
    content, with nothing between them. *)
Definition concatenation (post : RedditPost.t) : string :=
  RedditPost.title post +:+ RedditPost.content post.

(** A post whose title ends and whose content begins inside a keyword, and
    a post whose content begins with a space. *)
Definition split_keyword_post : RedditPost.t :=
  titled "Need a screenshot" "API for my project".

Definition spaced_post : RedditPost.t :=
  titled "Invoice PDF" " API wanted".

(** Two characters that are the same, or one letter of [A-Z], [a-z] in its
    two cases; two texts of the same length that are so character by
    character. *)
Definition same_letter (c d : ascii) : bool :=
  let m := nat_of_ascii c in
  let n := nat_of_ascii d in
  ((m =? n)
   || ((65 <=? m) && (m <=? 90) && (n =? m + 32))
   || ((65 <=? n) && (n <=? 90) && (m =? n + 32)))%nat.

Fixpoint equal_up_to_case (s t : string) : bool :=
  match s, t with
  | EmptyString, EmptyString => true
  | String c s', String d t' => same_letter c d && equal_up_to_case s' t'
  | _, _ => false
  end.

End Pipeline.

(** * Properties *)

(** Membership in a list that is written out. *)
Ltac in_list := repeat first [apply list_elem_of_here | apply list_elem_of_further].

(** ** The token bucket *)

Section Bucket.
Import RateLimiter.

Variable config : RateLimitConfig.

Lemma Qle_bool_false (a b : Q) : Qle_bool a b = false -> b < a.
Proof.
  intros H. apply Qnot_le_lt. intros Hle.
  apply Qle_bool_iff in Hle. congruence.
Qed.

Lemma elapsed_nonneg (now last : Z) :
  (last <= now)%Z -> 0 <= requestsPerMinute config ->
  0 <= inject_Z (now - last) / 60000 * requestsPerMinute config.
Proof.
  intros Hclock Hrate.
  assert (Hz : 0 <= inject_Z (now - last)).
  { change 0 with (inject_Z 0). rewrite <- Zle_Qle. lia. }
  apply Qmult_le_0_compat; [| exact Hrate].
  apply Qle_shift_div_l; [reflexivity |]. lra.
Qed.

(** A refill never takes the count above the burst limit, whatever the
    clock says. *)
Lemma refillTokens_le_burst (now : Z) (st : State) :
  tokens (refillTokens config now st) <= burstLimit config.
Proof. apply Q.le_min_l. Qed.

(** With a clock that did not run backwards, a refill does not take
    tokens away from a bucket within its limit. *)
Lemma refillTokens_increases (now : Z) (st : State) :
  (lastRefill st <= now)%Z -> 0 <= requestsPerMinute config ->
  tokens st <= burstLimit config ->
  tokens st <= tokens (refillTokens config now st).
Proof.
  intros Hclock Hrate Hcap. cbn.
  pose proof (elapsed_nonneg now (lastRefill st) Hclock Hrate) as Hnew.
  apply Q.min_glb; lra.
Qed.





Lemma observe_le_burst (o : Op) (st : State) :
  0 <= burstLimit config ->
  Forall (fun st' => tokens st' <= burstLimit config) (observe config o st).
Proof.
  intros Hburst.
  destruct o as [now wake | r | now | now]; cbn -[refillTokens].
  - unfold waitForToken_begin, waitForToken_resume.
    destruct (Qle_bool 1 (tokens (refillTokens config now st))); cbn -[refillTokens];
      repeat constructor; cbn -[refillTokens];
      try apply refillTokens_le_burst;
      match goal with
      | |- tokens (refillTokens config ?t ?s) - 1 <= _ =>
          pose proof (refillTokens_le_burst t s); lra
      end.
  - repeat constructor. exact Hburst.
  - repeat constructor. apply refillTokens_le_burst.
  - repeat constructor. apply refillTokens_le_burst.
Qed.


Lemma trace_le_burst (ops : list Op) (st : State) :
  0 <= burstLimit config ->
  Forall (fun st' => tokens st' <= burstLimit config) (trace config ops st).
Proof.
  intros Hburst. revert st.
  induction ops as [| o rest IH]; intros st; cbn; [constructor |].
  apply Forall_app. split; [now apply observe_le_burst | apply IH].
Qed.

End Bucket.

Section BucketClaims.
Import RateLimiter.

(** The rounded bucket without rounding is the exact one. *)
Lemma trace_exact (config : RateLimitConfig) (ops : list Op) (st : State) :
  Rounded.trace Rounded.exact config ops st = trace config ops st.
Proof.
  revert st. induction ops as [| o rest IH]; intros st; [reflexivity |].
  cbn [Rounded.trace trace]. rewrite IH. reflexivity.
Qed.

Lemma monotone_proper (round : Q -> Q) (x y : Q) :
  Rounded.monotone round -> x == y -> round x == round y.
Proof.
  intros Hmono Heq. apply Qle_antisym; apply Hmono; rewrite Heq; apply Qle_refl.
Qed.

Lemma rounded_refillTokens_le_burst (round : Q -> Q) config now st :
  tokens (Rounded.refillTokens round config now st) <= burstLimit config.
Proof. cbn. apply Q.le_min_l. Qed.

Lemma rounded_consume_le_burst (round : Q -> Q) config st :
  Rounded.monotone round -> Rounded.representable round (burstLimit config) ->
  tokens st <= burstLimit config ->
  tokens (Rounded.consume round st) <= burstLimit config.
Proof.
  intros Hmono Hburst Hcap. cbn. unfold Rounded.representable in Hburst.
  rewrite <- Hburst. apply Hmono. lra.
Qed.

Lemma rounded_observe_le_burst (round : Q -> Q) config o st :
  Rounded.monotone round -> Rounded.representable round (burstLimit config) ->
  0 <= burstLimit config ->
  Forall (fun st' => tokens st' <= burstLimit config) (Rounded.observe round config o st).
Proof.
  intros Hmono Hrep Hburst.
  pose proof (rounded_refillTokens_le_burst round config) as Hrefill.
  destruct o as [now wake | r | now | now]; cbn [Rounded.observe].
  - unfold Rounded.waitForToken_begin, Rounded.waitForToken_resume.
    destruct (Qle_bool 1 (tokens (Rounded.refillTokens round config now st))).
    + constructor; [| constructor].
      apply rounded_consume_le_burst; auto.
    + constructor; [apply Hrefill |]. constructor; [| constructor].
      apply rounded_consume_le_burst; auto.
  - constructor; [exact Hburst | constructor].
  - constructor; [apply Hrefill | constructor].
  - constructor; [apply Hrefill | constructor].
Qed.

Lemma rounded_trace_le_burst (round : Q -> Q) config ops st :
  Rounded.monotone round -> Rounded.representable round (burstLimit config) ->
  0 <= burstLimit config ->
  Forall (fun st' => tokens st' <= burstLimit config) (Rounded.trace round config ops st).
Proof.
  intros Hmono Hrep Hburst. revert st.
  induction ops as [| o rest IH]; intros st; cbn [Rounded.trace]; [constructor |].
  apply Forall_app. split; [now apply rounded_observe_le_burst | apply IH].
Qed.

Lemma to_grid_monotone : Rounded.monotone Rounded.to_grid.
Proof.
  intros x y Hxy. unfold Rounded.to_grid.
  assert (Hfloor : inject_Z (Qfloor (x * 1024)) <= inject_Z (Qfloor (y * 1024))).
  { rewrite <- Zle_Qle. apply Qfloor_resp_le. lra. }
  revert Hfloor.
  generalize (inject_Z (Qfloor (x * 1024))), (inject_Z (Qfloor (y * 1024))).
  intros a b Hab. unfold Qdiv. apply Qmult_le_compat_r; [exact Hab | discriminate].
Qed.

(** C2 (amended).  Whatever the rounding of the arithmetic, as long as it
    keeps the order of the exact results and the burst limit and zero are
    representable: the count never exceeds the burst limit at any
    observation point of any sequence of operations, at any timestamps,
    when the burst limit is not negative; the count is not negative right
    after a [waitForToken] that found a whole token and did not sleep, and
    it is zero right after [handleRateLimitResponse].  Exact arithmetic is
    one such rounding.  No lower bound is stated for the other observation
    points. *)
Theorem bucket_upper_bound
    (round : Q -> Q) (config : RateLimitConfig) (ops : list Op) (now0 : Z) :
  Rounded.monotone round ->
  Rounded.representable round (burstLimit config) ->
  Rounded.representable round 0 ->
  0 <= burstLimit config ->
  Forall (fun st => tokens st <= burstLimit config)
         (new config now0 :: Rounded.trace round config ops (new config now0))
  /\ (forall st now,
        fst (Rounded.waitForToken_begin round config now st) = None ->
        0 <= tokens (snd (Rounded.waitForToken_begin round config now st)))
  /\ (forall st retryAfter,
        tokens (snd (handleRateLimitResponse config retryAfter st)) == 0)
  /\ Rounded.trace Rounded.exact config ops (new config now0)
     = trace config ops (new config now0).
Proof.
  intros Hmono Hrep Hzero Hburst.
  split; [| split; [| split]].
  - constructor; [cbn; lra | now apply rounded_trace_le_burst].
  - intros st now. unfold Rounded.waitForToken_begin.
    destruct (Qle_bool 1 (tokens (Rounded.refillTokens round config now st))) eqn:Hfull;
      [| discriminate].
    intros _. apply Qle_bool_iff in Hfull.
    cbn [snd Rounded.consume tokens]. unfold Rounded.representable in Hzero.
    rewrite <- Hzero. apply Hmono. lra.
  - intros st retryAfter. reflexivity.
  - apply trace_exact.
Qed.

Lemma bucket_upper_bound_witness :
  let config := DEFAULT_RATE_LIMIT_CONFIG in
  Forall (fun st => tokens st <= burstLimit config)
         (new config 0 :: Rounded.trace Rounded.exact config sample_ops (new config 0))
  /\ 0 <= tokens (snd (Rounded.waitForToken_begin Rounded.exact config 0 (new config 0)))
  /\ Forall (fun st => tokens st <= burstLimit config)
            (new config 0
             :: Rounded.trace Rounded.to_grid config (Rounded.eleven 1999) (new config 0)).
Proof.
  intros config.
  assert (Hmono : Rounded.monotone Rounded.exact) by (intros x y Hxy; exact Hxy).
  assert (Hrep : Rounded.representable Rounded.exact (burstLimit config)) by reflexivity.
  assert (Hzero : Rounded.representable Rounded.exact 0) by reflexivity.
  assert (Hburst : 0 <= burstLimit config) by (vm_compute; discriminate).
  assert (Hrep' : Rounded.representable Rounded.to_grid (burstLimit config))
    by (vm_compute; reflexivity).
  assert (Hzero' : Rounded.representable Rounded.to_grid 0) by (vm_compute; reflexivity).
  destruct (bucket_upper_bound Rounded.exact config sample_ops 0 Hmono Hrep Hzero Hburst)
    as (Hupper & Hfast & _).
  destruct (bucket_upper_bound Rounded.to_grid config (Rounded.eleven 1999) 0
              to_grid_monotone Hrep' Hzero' Hburst)
    as (Hupper' & _).
  split; [exact Hupper |]. split; [| exact Hupper'].
  apply Hfast. reflexivity.
Defined.

(** The lower bound of the count leans on the arithmetic being exact.
    Under a rounding coarser than the doubles', down to a multiple of
    1/1024, a burst of ten and an eleventh acquisition at time 6, whose
    sleep of 1993 ms lasts exactly as long as it asked, leave a negative
    count, although the operations run one after the other and the clock
    only moves forward. *)
Lemma coarse_rounding_goes_negative :
  let config := DEFAULT_RATE_LIMIT_CONFIG in
  let st10 := Rounded.exec Rounded.to_grid config (OpRefillTokens 0)
                (List.last (Rounded.trace Rounded.to_grid config
                              (repeat (OpWaitForToken 0 0) 10) (new config 0))
                           (new config 0)) in
  Rounded.monotone Rounded.to_grid
  /\ Rounded.representable Rounded.to_grid (burstLimit config)
  /\ Rounded.representable Rounded.to_grid 0
  /\ fst (Rounded.waitForToken_begin Rounded.to_grid config 6 st10) = Some 1993%Z
  /\ tokens (List.last (Rounded.trace Rounded.to_grid config (Rounded.eleven (6 + 1993))
                          (new config 0))
                       (new config 0)) < 0.
Proof.
  intros config st10. split; [| split; [| split; [| split]]].
  - apply to_grid_monotone.
  - vm_compute. reflexivity.
  - vm_compute. reflexivity.
  - vm_compute. reflexivity.
  - vm_compute. reflexivity.
Qed.

(** C2, as stated, fails: with the default configuration the count goes
    negative when the clock is set back a minute between the construction
    and a status query, when the sleep of an eleventh acquisition ends one
    millisecond early, and when it ends with the clock where it was. *)
Lemma bucket_invariant_counterexample :
  let config := DEFAULT_RATE_LIMIT_CONFIG in
  let burst := repeat (OpWaitForToken 0 0) 10 in
  tokens (exec config (OpGetStatus 0) (new config 60000)) == -20
  /\ ~ Forall (in_range config)
              (new config 60000 :: trace config [OpGetStatus 0] (new config 60000))
  /\ ~ Forall (in_range config)
              (new config 0 :: trace config (burst ++ [OpWaitForToken 0 1999]) (new config 0))
  /\ ~ Forall (in_range config)
              (new config 0 :: trace config (burst ++ [OpWaitForToken 0 0]) (new config 0)).
Proof.
  intros config burst.
  split; [reflexivity |]. split; [| split].
  - intros H. inversion H as [| ? ? _ Htrace]; subst.
    inversion Htrace as [| ? ? [Hneg _] _]; subst.
    vm_compute in Hneg. apply Hneg. reflexivity.
  - intros H. rewrite Forall_forall in H.
    destruct (H (List.last (trace config (burst ++ [OpWaitForToken 0 1999]) (new config 0))
                           (new config 0))) as [Hneg _].
    + vm_compute. in_list.
    + vm_compute in Hneg. apply Hneg. reflexivity.
  - intros H. rewrite Forall_forall in H.
    destruct (H (List.last (trace config (burst ++ [OpWaitForToken 0 0]) (new config 0))
                           (new config 0))) as [Hneg _].
    + vm_compute. in_list.
    + vm_compute in Hneg. apply Hneg. reflexivity.
Qed.

(** Two calls of [waitForToken] that overlap on an empty bucket: both
    compute the same two-second sleep, both resume when it is over, and the
    second one takes the count to [-1]. *)
Lemma overlapping_waits_overdraw :
  let config := DEFAULT_RATE_LIMIT_CONFIG in
  let empty := {| tokens := 0; lastRefill := 0 |} in
  let (wait_a, st1) := waitForToken_begin config 0 empty in
  let (wait_b, st2) := waitForToken_begin config 0 st1 in
  let st3 := waitForToken_resume config 2000 st2 in
  let st4 := waitForToken_resume config 2000 st3 in
  wait_a = Some 2000%Z /\ wait_b = Some 2000%Z /\
  tokens st3 == 0 /\ tokens st4 == -1.
Proof. vm_compute. repeat split; reflexivity. Qed.

(** C3 (amended).  In every state met along any sequence of operations,
    [refillTokens], [getStatus] and the waiting branch of [waitForToken],
    run at a time not earlier than the last refill, do not decrease the
    count; the consuming steps of [waitForToken] take exactly one token from
    the refilled bucket; and [handleRateLimitResponse] resets the count to
    zero, whatever it was. *)
Theorem tokens_decrease_only_by_consume_or_reset
    (config : RateLimitConfig) (ops : list Op) (now0 : Z) (st : State) :
  0 <= requestsPerMinute config -> 0 <= burstLimit config ->
  st ∈ new config now0 :: trace config ops (new config now0) ->
  (forall now, (lastRefill st <= now)%Z ->
     tokens st <= tokens (refillTokens config now st)
     /\ tokens st <= tokens (snd (getStatus config now st))
     /\ match waitForToken_begin config now st with
        | (None, st') => tokens st' == tokens (refillTokens config now st) - 1
        | (Some _, st') => tokens st <= tokens st'
        end)
  /\ (forall wake,
        tokens (waitForToken_resume config wake st)
        == tokens (refillTokens config wake st) - 1)
  /\ (forall retryAfter,
        tokens (snd (handleRateLimitResponse config retryAfter st)) == 0).
Proof.
  intros Hrate Hburst Hin.
  assert (Hcap : tokens st <= burstLimit config).
  { apply elem_of_cons in Hin as [-> | Hin]; [cbn; lra |].
    pose proof (trace_le_burst config ops (new config now0) Hburst) as Hupper.
    rewrite Forall_forall in Hupper. now apply Hupper. }
  split; [| split].
  - intros now Hclock.
    pose proof (refillTokens_increases config now st Hclock Hrate Hcap) as Hinc.
    split; [exact Hinc |]. split; [exact Hinc |].
    unfold waitForToken_begin.
    destruct (Qle_bool 1 (tokens (refillTokens config now st)));
      [reflexivity | exact Hinc].
  - intros wake. reflexivity.
  - intros retryAfter. reflexivity.
Qed.

Lemma tokens_decrease_only_by_consume_or_reset_witness :
  let config := DEFAULT_RATE_LIMIT_CONFIG in
  let st := exec config (OpWaitForToken 0 0) (new config 0) in
  tokens st == 9
  /\ tokens st <= tokens (refillTokens config 1000 st)
  /\ tokens (snd (handleRateLimitResponse config (Some 60) st)) == 0.
Proof.
  intros config st.
  destruct (tokens_decrease_only_by_consume_or_reset config
              [OpWaitForToken 0 0] 0 st) as [Hkeep [_ Hreset]].
  - vm_compute. discriminate.
  - vm_compute. discriminate.
  - vm_compute. in_list.
  - split; [reflexivity |]. split.
    + assert (Hclock : (lastRefill st <= 1000)%Z) by (vm_compute; discriminate).
      destruct (Hkeep 1000%Z Hclock) as [Hrefill _]. exact Hrefill.
    + exact (Hreset (Some 60)).
Defined.

(** C3, as stated, fails: [handleRateLimitResponse] is not the consuming
    step of [waitForToken], and it takes a bucket of nine tokens to none. *)
Lemma handleRateLimitResponse_decreases_tokens :
  let config := DEFAULT_RATE_LIMIT_CONFIG in
  let st := exec config (OpWaitForToken 0 0) (new config 0) in
  let st' := exec config (OpHandleRateLimitResponse (Some 60)) st in
  tokens st == 9 /\ tokens st' == 0 /\ tokens st' < tokens st.
Proof. vm_compute. repeat split; reflexivity. Qed.

End BucketClaims.

(** ** The backoff policy *)

Section Backoff.
Import RateLimiter.

Variable config : RateLimitConfig.

(** [pow] is the power of the rationals. *)
Lemma pow_Qpower (base : Q) (n : nat) : pow base n == base ^ Z.of_nat n.
Proof.
  induction n as [| n IH].
  - reflexivity.
  - replace (Z.of_nat (S n)) with (1 + Z.of_nat n)%Z by lia.
    rewrite Qpower_plus' by lia.
    cbn [pow]. rewrite IH. reflexivity.
Qed.

Lemma pow_ge_1 (base : Q) (n : nat) : 1 <= base -> 1 <= pow base n.
Proof.
  intros Hbase. induction n as [| n IH]; cbn [pow]; [lra | nra].
Qed.

Lemma pow_mono (base : Q) (n m : nat) :
  1 <= base -> (n <= m)%nat -> pow base n <= pow base m.
Proof.
  intros Hbase Hle. induction Hle as [| m Hle IH]; [lra |].
  cbn [pow]. pose proof (pow_ge_1 base m Hbase) as Hm. nra.
Qed.

End Backoff.

Section BackoffClaims.
Import RateLimiter.

(** C4 (amended).  For every configuration and every natural [n],
    [getBackoffDelay n] is [min (1000 * backoffMultiplier ^ n) maxBackoffMs]
    and never exceeds [maxBackoffMs]; it is non-decreasing in [n] when the
    multiplier is at least 1; [getBackoffDelay 0] is [min 1000 maxBackoffMs],
    which is the base delay of 1000 ms when [maxBackoffMs] is at least
    1000. *)
Theorem getBackoffDelay_spec (config : RateLimitConfig) :
  (forall n : nat,
     getBackoffDelay config n
     == Qmin (1000 * backoffMultiplier config ^ Z.of_nat n) (maxBackoffMs config))
  /\ (forall n : nat, getBackoffDelay config n <= maxBackoffMs config)
  /\ (1 <= backoffMultiplier config ->
      forall n m : nat, (n <= m)%nat ->
        getBackoffDelay config n <= getBackoffDelay config m)
  /\ getBackoffDelay config 0 == Qmin 1000 (maxBackoffMs config)
  /\ (1000 <= maxBackoffMs config -> getBackoffDelay config 0 == 1000).
Proof.
  split; [| split; [| split; [| split]]].
  - intros n. unfold getBackoffDelay. rewrite pow_Qpower. reflexivity.
  - intros n. apply Q.le_min_r.
  - intros Hmult n m Hle. unfold getBackoffDelay.
    apply Q.min_le_compat_r.
    pose proof (pow_mono (backoffMultiplier config) n m Hmult Hle). lra.
  - unfold getBackoffDelay. cbn [pow].
    reflexivity.
  - intros Hcap. unfold getBackoffDelay. cbn [pow].
    rewrite Q.min_l; [ring | lra].
Qed.

Lemma getBackoffDelay_spec_witness :
  let config := DEFAULT_RATE_LIMIT_CONFIG in
  getBackoffDelay config 2 <= getBackoffDelay config 9
  /\ getBackoffDelay config 0 == 1000.
Proof.
  intros config.
  destruct (getBackoffDelay_spec config) as [_ [_ [Hmono [_ Hbase]]]].
  split.
  - apply Hmono; [vm_compute; discriminate | lia].
  - apply Hbase. vm_compute. discriminate.
Defined.

(** C4, as stated, fails for a multiplier below 1, with which the delay
    decreases, and for a cap below the base delay, with which the first
    delay is the cap. *)
Lemma getBackoffDelay_counterexample :
  let halving := {| requestsPerMinute := 30; burstLimit := 10;
                    backoffMultiplier := 1 # 2; maxBackoffMs := 300000;
                    maxRetries := 3 |} in
  let capped := {| requestsPerMinute := 30; burstLimit := 10;
                   backoffMultiplier := 2; maxBackoffMs := 500;
                   maxRetries := 3 |} in
  getBackoffDelay halving 0 == 1000
  /\ getBackoffDelay halving 1 == 500
  /\ ~ getBackoffDelay halving 0 <= getBackoffDelay halving 1
  /\ getBackoffDelay capped 0 == 500
  /\ ~ getBackoffDelay capped 0 == 1000.
Proof.
  intros halving capped.
  split; [reflexivity |]. split; [reflexivity |].
  split; [intros H; vm_compute in H; apply H; reflexivity |].
  split; [reflexivity |].
  intros H. vm_compute in H. discriminate.
Qed.

End BackoffClaims.

(** ** The retrying executor *)

Section ExecutorFacts.
Import RateLimiter Executor.

Context {T : Type}.
Variable limiter : RateLimitConfig.
Variable fn : Task T.

(** The loop condition [attempt <= DEFAULT_RATE_LIMIT_CONFIG.maxRetries]. *)
Lemma loop_condition (attempt : nat) :
  Qle_bool (inject_Z (Z.of_nat attempt)) (maxRetries DEFAULT_RATE_LIMIT_CONFIG)
  = (attempt <=? 3)%nat.
Proof.
  apply eq_true_iff_eq. rewrite Qle_bool_iff, Nat.leb_le.
  change (maxRetries DEFAULT_RATE_LIMIT_CONFIG) with (inject_Z 3).
  rewrite <- Zle_Qle. lia.
Qed.

Lemma loop_exit (fuel attempt invoked : nat) (lastError : option Failure) :
  (3 < attempt)%nat ->
  loop fuel limiter fn attempt invoked lastError
  = Some {| result := Rejected (match lastError with
                                | Some error => error
                                | None => OtherError "Max retries exceeded"
                                end);
            calls := invoked; log := [] |}.
Proof.
  intros Hexit. destruct fuel; cbn [loop]; rewrite loop_condition;
    apply Nat.leb_gt in Hexit; rewrite Hexit; reflexivity.
Qed.

Lemma loop_body (fuel attempt invoked : nat) (lastError : option Failure) :
  (attempt <= 3)%nat ->
  loop (S fuel) limiter fn attempt invoked lastError
  = option_map (after [EvWaitForToken; EvCall invoked])
      match fn invoked with
      | Resolved value =>
          Some {| result := Resolved value; calls := S invoked; log := [] |}
      | Rejected error =>
          match error with
          | RateLimitError _ retryAfter =>
              option_map (after [EvHandleRateLimit retryAfter])
                (loop fuel limiter fn (S attempt) (S invoked) (Some error))
          | OtherError _ =>
              if shouldRetry limiter attempt then
                option_map
                  (after [EvOnRetry attempt error;
                          EvBackoff (getBackoffDelay limiter attempt)])
                  (loop fuel limiter fn (S attempt) (S invoked) (Some error))
              else
                Some {| result := Rejected error; calls := S invoked; log := [] |}
          end
      end.
Proof.
  intros Hin. cbn [loop]. rewrite loop_condition.
  apply Nat.leb_le in Hin. rewrite Hin. reflexivity.
Qed.

(** Runs the loop symbolically: one case per way the successive
    invocations settle and per answer of [shouldRetry]. *)
Ltac run_loop :=
  repeat first
    [ rewrite loop_exit by lia
    | rewrite loop_body by lia;
      match goal with
      | |- context [match fn ?k with Resolved _ => _ | Rejected _ => _ end] =>
          destruct (fn k) as [? | [? ? | ?]] eqn:?
      end;
      try match goal with
          | |- context [if shouldRetry limiter ?a then _ else _] =>
              destruct (shouldRetry limiter a) eqn:?
          end ].

Ltac by_attempt k :=
  destruct k as [| [| [| [| k]]]]; [| | | | exfalso; cbn in *; lia].

Ltac find_adjacent :=
  cbn [adjacent];
  repeat first [ left; split; congruence | right ].

(** What a run of the executor looks like, attempt by attempt. *)
Lemma withRateLimit_run :
  exists r : Run T,
    withRateLimit limiter fn = Some r
    /\ (1 <= calls r <= 4)%nat
    /\ (forall k message retryAfter,
          (k < calls r)%nat -> fn k = Rejected (RateLimitError message retryAfter) ->
          adjacent (EvCall k) (EvHandleRateLimit retryAfter) (log r)
          /\ ((k < 3)%nat -> (S k < calls r)%nat))
    /\ (forall k message,
          (k < calls r)%nat -> fn k = Rejected (OtherError message) ->
          if shouldRetry limiter k
          then adjacent (EvOnRetry k (OtherError message))
                        (EvBackoff (getBackoffDelay limiter k)) (log r)
               /\ ((k < 3)%nat -> (S k < calls r)%nat)
          else calls r = S k /\ result r = fn k)
    /\ (forall k value,
          (k < calls r)%nat -> fn k = Resolved value ->
          calls r = S k /\ result r = fn k)
    /\ (forall error, calls r = 4%nat -> fn 3%nat = Rejected error -> result r = fn 3%nat).
Proof.
  unfold withRateLimit. run_loop;
    unfold after; cbn [option_map app calls result log];
    (eexists; split; [reflexivity |]);
    cbn [calls result log];
    (split; [lia |]);
    (split; [| split; [| split]]).
  all: intros k; intros.
  all: try (by_attempt k; try congruence).
  all: repeat match goal with
              | H : shouldRetry limiter _ = _ |- _ => rewrite H
              end.
  all: try congruence.
  all: try lia.
  all: split; try congruence; try lia; try find_adjacent.
Qed.

Lemma shouldRetry_true_iff (attempt : nat) :
  shouldRetry limiter attempt = true
  <-> inject_Z (Z.of_nat attempt) < maxRetries limiter.
Proof.
  unfold shouldRetry, Qlt_bool. rewrite negb_true_iff. split.
  - apply Qle_bool_false.
  - intros Hlt. destruct (Qle_bool _ _) eqn:Hle; [| reflexivity].
    apply Qle_bool_iff in Hle. lra.
Qed.

Lemma attempts_within_default (n : nat) :
  (n <= 4)%nat <->
  inject_Z (Z.of_nat n) <= maxRetries DEFAULT_RATE_LIMIT_CONFIG + 1.
Proof.
  change (maxRetries DEFAULT_RATE_LIMIT_CONFIG + 1) with (inject_Z 4).
  rewrite <- Zle_Qle. lia.
Qed.

Lemma attempt_below_default (k : nat) :
  (k < 3)%nat <->
  inject_Z (Z.of_nat k) < maxRetries DEFAULT_RATE_LIMIT_CONFIG.
Proof.
  change (maxRetries DEFAULT_RATE_LIMIT_CONFIG) with (inject_Z 3).
  rewrite <- Zlt_Qlt. lia.
Qed.

End ExecutorFacts.

Section ExecutorClaims.
Import RateLimiter Executor.

(** C1 (amended).  When an invocation of the task fails with a
    [RateLimitError], [handleRateLimitResponse] is called with the error's
    [retryAfter] right after it, and, [shouldRetry] not being consulted, a
    further attempt follows whenever the loop counter is still below
    [DEFAULT_RATE_LIMIT_CONFIG.maxRetries], whatever the limiter's own
    [maxRetries].  These retries count against the loop bound: no run makes
    more than [DEFAULT_RATE_LIMIT_CONFIG.maxRetries + 1] attempts, and a
    task throttled on each of its first four invocations is abandoned after
    the fourth, the executor rejecting with that last error. *)
Theorem throttled_retries_are_bounded
    (T : Type) (limiter : RateLimitConfig) (fn : Task T) :
  exists r : Run T,
    withRateLimit limiter fn = Some r
    /\ (forall k message retryAfter,
          (k < calls r)%nat -> fn k = Rejected (RateLimitError message retryAfter) ->
          adjacent (EvCall k) (EvHandleRateLimit retryAfter) (log r)
          /\ (inject_Z (Z.of_nat k) < maxRetries DEFAULT_RATE_LIMIT_CONFIG ->
              (S k < calls r)%nat))
    /\ inject_Z (Z.of_nat (calls r)) <= maxRetries DEFAULT_RATE_LIMIT_CONFIG + 1
    /\ ((forall k, (k <= 3)%nat -> is_throttled (fn k)) ->
        calls r = 4%nat /\ result r = fn 3%nat).
Proof.
  destruct (withRateLimit_run limiter fn)
    as (r & Hrun & Hcalls & Hthrottled & _ & _ & Hlast).
  exists r. split; [exact Hrun |]. split; [| split].
  - intros k message retryAfter Hk Hfn.
    destruct (Hthrottled k message retryAfter Hk Hfn) as [Hadj Hnext].
    split; [exact Hadj |]. intros Hbelow. apply Hnext.
    now apply attempt_below_default.
  - apply attempts_within_default. lia.
  - intros Hall.
    assert (Hstep : forall k, (k < 3)%nat -> (k < calls r)%nat -> (S k < calls r)%nat).
    { intros k Hk3 Hk. specialize (Hall k ltac:(lia)).
      destruct (fn k) as [? | [message retryAfter | ?]] eqn:Hfn; try contradiction.
      now apply (Hthrottled k message retryAfter Hk Hfn). }
    assert (H1 : (1 < calls r)%nat) by (apply (Hstep 0%nat); lia).
    assert (H2 : (2 < calls r)%nat) by (apply (Hstep 1%nat); lia).
    assert (H3 : (3 < calls r)%nat) by (apply (Hstep 2%nat); lia).
    assert (H4 : calls r = 4%nat) by lia.
    split; [exact H4 |].
    specialize (Hall 3%nat ltac:(lia)).
    destruct (fn 3%nat) as [? | error] eqn:Hfn; [contradiction |].
    now apply (Hlast error).
Qed.

Lemma throttled_retries_are_bounded_witness :
  exists r : Run nat,
    withRateLimit no_retry_config always_throttled = Some r
    /\ adjacent (EvCall 0) (EvHandleRateLimit (Some 60)) (log r)
    /\ (1 < calls r)%nat
    /\ calls r = 4%nat
    /\ result r = Rejected (RateLimitError "Rate limited by Reddit" (Some 60)).
Proof.
  destruct (throttled_retries_are_bounded nat no_retry_config always_throttled)
    as (r & Hrun & Hthrottled & _ & Hall).
  assert (Hfour : calls r = 4%nat /\ result r = always_throttled 3%nat).
  { apply Hall. intros k _. exact I. }
  destruct Hfour as [Hcalls Hresult].
  assert (Hfirst : (0 < calls r)%nat) by (rewrite Hcalls; repeat constructor).
  destruct (Hthrottled 0%nat "Rate limited by Reddit"%string (Some 60) Hfirst eq_refl)
    as [Hadj Hnext].
  exists r. split; [exact Hrun |]. split; [exact Hadj |].
  split; [apply Hnext; reflexivity |]. split; [exact Hcalls | exact Hresult].
Defined.

(** C1, as stated, fails: a task that is throttled four times and would
    succeed the fifth time is not retried a fourth time; the executor
    rejects with the [RateLimitError] after
    [DEFAULT_RATE_LIMIT_CONFIG.maxRetries + 1] attempts. *)
Lemma throttled_retries_counterexample :
  let fn : Task nat :=
    fun k => if (k <? 4)%nat
             then Rejected (RateLimitError "Rate limited by Reddit" (Some 60))
             else Resolved 7%nat in
  fn 4%nat = Resolved 7%nat
  /\ withRateLimit DEFAULT_RATE_LIMIT_CONFIG fn
     = Some {| result := Rejected (RateLimitError "Rate limited by Reddit" (Some 60));
               calls := 4;
               log := [EvWaitForToken; EvCall 0; EvHandleRateLimit (Some 60);
                       EvWaitForToken; EvCall 1; EvHandleRateLimit (Some 60);
                       EvWaitForToken; EvCall 2; EvHandleRateLimit (Some 60);
                       EvWaitForToken; EvCall 3; EvHandleRateLimit (Some 60)] |}.
Proof. split; reflexivity. Qed.

(** C10.  Whatever the [maxRetries] of the limiter passed in, the executor
    makes at most [DEFAULT_RATE_LIMIT_CONFIG.maxRetries + 1] attempts.  The
    decision taken after a failure that is not a [RateLimitError] is the
    limiter's own [shouldRetry], which compares the attempt with the
    [maxRetries] of that limiter: when the attempt has reached it, that
    attempt is the last and its error is thrown; when it is below, the
    observer and the backoff sleep of [getBackoffDelay] follow, and a
    further attempt if the loop counter allows one.  Hence, on a task that
    keeps failing, a limiter whose [maxRetries] is first reached by the
    attempt [n], with [n] at most the default, gives [n + 1] attempts and
    the error of the last of them (one attempt when [maxRetries] is zero),
    and a limiter whose [maxRetries] exceeds the default gives four
    attempts and the fourth error. *)
Theorem attempts_bounded_by_default_maxRetries
    (T : Type) (limiter : RateLimitConfig) (fn : Task T) :
  exists r : Run T,
    withRateLimit limiter fn = Some r
    /\ inject_Z (Z.of_nat (calls r)) <= maxRetries DEFAULT_RATE_LIMIT_CONFIG + 1
    /\ (forall k message,
          (k < calls r)%nat -> fn k = Rejected (OtherError message) ->
          (shouldRetry limiter k = false -> calls r = S k /\ result r = fn k)
          /\ (shouldRetry limiter k = true ->
              adjacent (EvOnRetry k (OtherError message))
                       (EvBackoff (getBackoffDelay limiter k)) (log r)
              /\ (inject_Z (Z.of_nat k) < maxRetries DEFAULT_RATE_LIMIT_CONFIG ->
                  (S k < calls r)%nat)))
    /\ (maxRetries DEFAULT_RATE_LIMIT_CONFIG < maxRetries limiter ->
        (forall k, (k <= 3)%nat -> is_transient (fn k)) ->
        calls r = 4%nat /\ result r = fn 3%nat)
    /\ (forall k,
          shouldRetry limiter k = true <-> inject_Z (Z.of_nat k) < maxRetries limiter)
    /\ (forall k message,
          (k < calls r)%nat -> fn k = Rejected (OtherError message) ->
          (maxRetries limiter <= inject_Z (Z.of_nat k) ->
           calls r = S k /\ result r = fn k)
          /\ (inject_Z (Z.of_nat k) < maxRetries limiter ->
              adjacent (EvOnRetry k (OtherError message))
                       (EvBackoff (getBackoffDelay limiter k)) (log r)
              /\ (inject_Z (Z.of_nat k) < maxRetries DEFAULT_RATE_LIMIT_CONFIG ->
                  (S k < calls r)%nat)))
    /\ (forall n : nat,
          (forall k, (k < n)%nat -> inject_Z (Z.of_nat k) < maxRetries limiter) ->
          maxRetries limiter <= inject_Z (Z.of_nat n) ->
          inject_Z (Z.of_nat n) <= maxRetries DEFAULT_RATE_LIMIT_CONFIG ->
          (forall k, (k <= n)%nat -> is_transient (fn k)) ->
          calls r = S n /\ result r = fn n).
Proof.
  destruct (withRateLimit_run limiter fn)
    as (r & Hrun & Hcalls & _ & Htransient & _ & Hlast).
  assert (Hdecision : forall k message,
            (k < calls r)%nat -> fn k = Rejected (OtherError message) ->
            (shouldRetry limiter k = false -> calls r = S k /\ result r = fn k)
            /\ (shouldRetry limiter k = true ->
                adjacent (EvOnRetry k (OtherError message))
                         (EvBackoff (getBackoffDelay limiter k)) (log r)
                /\ (inject_Z (Z.of_nat k) < maxRetries DEFAULT_RATE_LIMIT_CONFIG ->
                    (S k < calls r)%nat))).
  { intros k message Hk Hfn.
    specialize (Htransient k message Hk Hfn).
    split; intros Hretry; rewrite Hretry in Htransient; [exact Htransient |].
    destruct Htransient as [Hadj Hnext]. split; [exact Hadj |].
    intros Hbelow. apply Hnext. now apply attempt_below_default. }
  assert (Hstep : forall k,
            (k < 3)%nat -> inject_Z (Z.of_nat k) < maxRetries limiter ->
            is_transient (fn k) -> (k < calls r)%nat -> (S k < calls r)%nat).
  { intros k Hk3 Hbelow Hfail Hk.
    destruct (fn k) as [? | [? ? | message]] eqn:Hfn; try contradiction.
    destruct (Hdecision k message Hk Hfn) as [_ Hyes].
    apply Hyes; [now apply shouldRetry_true_iff | now apply attempt_below_default]. }
  exists r. split; [exact Hrun |]. split; [| split; [| split; [| split; [| split]]]].
  - apply attempts_within_default. lia.
  - exact Hdecision.
  - intros Habove Hall.
    assert (Hbelow : forall k, (k < 3)%nat -> inject_Z (Z.of_nat k) < maxRetries limiter).
    { intros k Hk3. apply (attempt_below_default k) in Hk3. lra. }
    assert (H1 : (1 < calls r)%nat)
      by (apply (Hstep 0%nat); [lia | apply Hbelow; lia | apply Hall; lia | lia]).
    assert (H2 : (2 < calls r)%nat)
      by (apply (Hstep 1%nat); [lia | apply Hbelow; lia | apply Hall; lia | lia]).
    assert (H3 : (3 < calls r)%nat)
      by (apply (Hstep 2%nat); [lia | apply Hbelow; lia | apply Hall; lia | lia]).
    assert (H4 : calls r = 4%nat) by lia.
    split; [exact H4 |].
    specialize (Hall 3%nat ltac:(lia)).
    destruct (fn 3%nat) as [? | error] eqn:Hfn; [contradiction |].
    now apply (Hlast error).
  - intros k. apply shouldRetry_true_iff.
  - intros k message Hk Hfn.
    destruct (Hdecision k message Hk Hfn) as [Hno Hyes].
    split.
    + intros Hreached. apply Hno.
      destruct (shouldRetry limiter k) eqn:Hretry; [| reflexivity].
      apply shouldRetry_true_iff in Hretry. lra.
    + intros Hbelow. apply Hyes. now apply shouldRetry_true_iff.
  - intros n Hbelow Hreached Hdefault Hall.
    assert (Hn3 : (n <= 3)%nat).
    { change (maxRetries DEFAULT_RATE_LIMIT_CONFIG) with (inject_Z 3) in Hdefault.
      rewrite <- Zle_Qle in Hdefault. lia. }
    assert (Hn : (n < calls r)%nat).
    { assert (Hclimb : forall k, (k <= n)%nat -> (k < calls r)%nat).
      { induction k as [| k IH]; intros Hkn; [lia |].
        apply Hstep; [lia | apply Hbelow; lia | apply Hall; lia | apply IH; lia]. }
      now apply Hclimb. }
    specialize (Hall n ltac:(lia)).
    destruct (fn n) as [? | [? ? | message]] eqn:Hfn; try contradiction.
    destruct (Hdecision n message Hn Hfn) as [Hno _].
    rewrite <- Hfn. apply Hno.
    destruct (shouldRetry limiter n) eqn:Hretry; [| reflexivity].
    apply shouldRetry_true_iff in Hretry. lra.
Qed.

Lemma attempts_bounded_by_default_maxRetries_witness :
  (exists r : Run nat,
     withRateLimit ten_retries_config always_failing = Some r
     /\ calls r = 4%nat
     /\ result r = Rejected (OtherError "Reddit API error: 503"))
  /\ (exists r : Run nat,
        withRateLimit no_retry_config always_failing = Some r
        /\ calls r = 1%nat
        /\ result r = Rejected (OtherError "Reddit API error: 503")).
Proof.
  split.
  - destruct (attempts_bounded_by_default_maxRetries nat ten_retries_config always_failing)
      as (r & Hrun & _ & _ & Hall & _).
    assert (Hfour : calls r = 4%nat /\ result r = always_failing 3%nat).
    { apply Hall; [reflexivity | intros k _; exact I]. }
    exists r. split; [exact Hrun | exact Hfour].
  - destruct (attempts_bounded_by_default_maxRetries nat no_retry_config always_failing)
      as (r & Hrun & _ & _ & _ & _ & _ & Hreached).
    assert (Hone : calls r = 1%nat /\ result r = always_failing 0%nat).
    { apply Hreached.
      - intros k Hk. lia.
      - vm_compute. discriminate.
      - vm_compute. discriminate.
      - intros k _. exact I. }
    exists r. split; [exact Hrun | exact Hone].
Defined.

End ExecutorClaims.

(** ** The search aggregator *)

Section SearchFacts.
Import Executor Async RedditClient.

Context {W : Type}.
Variable request : string -> M W RedditSearchResponse.
Variable URLSearchParams_toString : list (string * string) -> string.
Variable Number_toString : Z -> string.

Local Abbreviation search_loop := (search_loop request URLSearchParams_toString Number_toString).
Local Abbreviation request_each := (request_each request URLSearchParams_toString Number_toString).

(** The loop never rejects: it resolves to what it was given followed by
    the posts of the listings that arrived, and leaves the world the
    requests leave. *)
Lemma search_loop_spec (query : string) (timeRange : TimeRange) (limit : Z)
    (subreddits : list string) :
  forall (allPosts : list RedditPost.t) (w : W),
    search_loop query timeRange limit subreddits allPosts w
    = (Resolved (allPosts ++ concat (List.map posts_of
                   (fst (request_each query timeRange limit subreddits w)))),
       snd (request_each query timeRange limit subreddits w)).
Proof.
  induction subreddits as [| subreddit rest IH]; intros allPosts w.
  - cbn. unfold mret, M_ret, ret. now rewrite app_nil_r.
  - cbn [RedditClient.search_loop RedditClient.request_each].
    unfold mbind, M_bind, bind, try_catch, search_subreddit.
    unfold mbind, M_bind, bind, mret, M_ret, ret.
    destruct (request (search_endpoint URLSearchParams_toString Number_toString
                         query subreddit timeRange limit) w)
      as [[response | error] w'] eqn:Hrequest.
    + rewrite IH.
      destruct (request_each query timeRange limit rest w') as [os w''].
      cbn. now rewrite <- app_assoc.
    + rewrite IH.
      destruct (request_each query timeRange limit rest w') as [os w''].
      reflexivity.
Qed.

Lemma request_each_length (query : string) (timeRange : TimeRange) (limit : Z)
    (subreddits : list string) :
  forall w : W,
    length (fst (request_each query timeRange limit subreddits w))
    = length subreddits.
Proof.
  induction subreddits as [| subreddit rest IH]; intros w; [reflexivity |].
  cbn [RedditClient.request_each].
  destruct (request _ w) as [o w'].
  specialize (IH w').
  destruct (request_each query timeRange limit rest w') as [os w''].
  cbn in *. now rewrite IH.
Qed.

End SearchFacts.

(** C5.  [search] never rejects.  Every subreddit of the list gets its
    request, in order and whatever became of the earlier ones, and the
    result is the concatenation, in that order, of the decoded posts of the
    requests that resolved; a request that rejected contributes nothing. *)
Theorem search_partial_failure
    (W : Type) (request : string -> Async.M W RedditSearchResponse)
    (URLSearchParams_toString : list (string * string) -> string)
    (Number_toString : Z -> string)
    (query : string) (subreddits : list string)
    (options : RedditClient.SearchOptions) (w : W) :
  let timeRange := default RedditClient.day (RedditClient.timeRange options) in
  let limit := default 25%Z (RedditClient.limit options) in
  let requests :=
    RedditClient.request_each request URLSearchParams_toString Number_toString
      query timeRange limit subreddits w in
  RedditClient.search request URLSearchParams_toString Number_toString
    query subreddits options w
  = (Executor.Resolved (concat (List.map RedditClient.posts_of (fst requests))),
     snd requests)
  /\ length (fst requests) = length subreddits.
Proof.
  intros timeRange limit requests. split.
  - unfold RedditClient.search. now rewrite search_loop_spec.
  - apply request_each_length.
Qed.

(** ** Construction of the client *)

Section ClientClaims.
Import Executor Async RedditClient.

(** C9 (amended).  [createRedditClient] checks the client id and the client
    secret only.  When either is unset or empty it rejects at once with
    the configuration error, and a collection run ends there, with that
    error and the world untouched: no request was made and nothing is
    tried again.  When both are set it returns a client; the user agent is
    the one of the environment, or the built-in default when the
    environment has none. *)
Theorem createRedditClient_requires_id_and_secret (env : Env) (now : Z) :
  (missing env "REDDIT_CLIENT_ID" \/ missing env "REDDIT_CLIENT_SECRET" ->
   createRedditClient env now = Rejected missing_credentials
   /\ forall (W : Type) search (w : W),
        Collector.runCollection search env now w = (Rejected missing_credentials, w))
  /\
  (forall id secret,
     env !! "REDDIT_CLIENT_ID" = Some id -> id <> ""%string ->
     env !! "REDDIT_CLIENT_SECRET" = Some secret -> secret <> ""%string ->
     exists agent,
       createRedditClient env now
       = Resolved (new {| clientId := id; clientSecret := secret; userAgent := agent |} now)
       /\ (missing env "REDDIT_USER_AGENT" ->
           agent = "LeadOwl/1.0.0 (https://leadowl.techyowls.io)"%string)
       /\ (forall given, env !! "REDDIT_USER_AGENT" = Some given ->
                         given <> ""%string -> agent = given)).
Proof.
  assert (Hmissing : forall name, missing env name -> truthy (env !! name) = None).
  { intros name [Hunset | Hempty]; [now rewrite Hunset | now rewrite Hempty]. }
  assert (Hset : forall name v, env !! name = Some v -> v <> ""%string ->
                                truthy (env !! name) = Some v).
  { intros name v Hv Hne. rewrite Hv. cbn.
    destruct (String.eqb_spec v ""); [contradiction | reflexivity]. }
  split.
  - intros Hcred.
    assert (Hcreate : createRedditClient env now = Rejected missing_credentials).
    { unfold createRedditClient.
      destruct Hcred as [Hid | Hsecret].
      - now rewrite (Hmissing _ Hid).
      - rewrite (Hmissing _ Hsecret). now destruct (truthy (env !! _)). }
    split; [exact Hcreate |].
    intros W search w. unfold Collector.runCollection. now rewrite Hcreate.
  - intros id secret Hid Hid_ne Hsecret Hsecret_ne.
    unfold createRedditClient.
    rewrite (Hset _ _ Hid Hid_ne), (Hset _ _ Hsecret Hsecret_ne).
    eexists. split; [reflexivity |]. split.
    + intros Hagent. now rewrite (Hmissing _ Hagent).
    + intros given Hgiven Hne. now rewrite (Hset _ _ Hgiven Hne).
Qed.

Lemma createRedditClient_requires_id_and_secret_witness :
  createRedditClient credentials_without_agent 0
  = Rejected missing_credentials
  \/ exists agent,
       createRedditClient credentials_without_agent 0
       = Resolved (new {| clientId := "abc"; clientSecret := "s3cret";
                          userAgent := agent |} 0)
       /\ agent = "LeadOwl/1.0.0 (https://leadowl.techyowls.io)"%string.
Proof.
  right.
  destruct (createRedditClient_requires_id_and_secret credentials_without_agent 0)
    as [_ Hpresent].
  destruct (Hpresent "abc"%string "s3cret"%string) as (agent & Hcreate & Hdefault & _).
  - reflexivity.
  - discriminate.
  - reflexivity.
  - discriminate.
  - exists agent. split; [exact Hcreate |].
    apply Hdefault. left. reflexivity.
Defined.

(** C9, as stated, fails: with the client id and the client secret set and
    no user agent, no error is raised; the client is built with the
    default user agent. *)
Lemma createRedditClient_without_user_agent :
  credentials_without_agent !! "REDDIT_USER_AGENT" = None
  /\ createRedditClient credentials_without_agent 0
     = Resolved (new {| clientId := "abc"; clientSecret := "s3cret";
                        userAgent := "LeadOwl/1.0.0 (https://leadowl.techyowls.io)" |} 0).
Proof. split; reflexivity. Qed.

End ClientClaims.

(** ** Strings *)

Section Strings.
Import JSString Design.

Lemma startsWith_spec (p : string) :
  forall s, startsWith s p = true <-> is_prefix p s.
Proof.
  induction p as [| a p IH]; intros s; cbn.
  - split; [intros _; now exists s | reflexivity].
  - destruct s as [| b s]; cbn.
    + split; [discriminate | intros [rest Hrest]; discriminate].
    + destruct (Ascii.eqb_spec a b) as [-> | Hne].
      * rewrite IH. split; intros [rest Hrest]; exists rest.
        -- change (String b s = String b (p +:+ rest)). now rewrite Hrest.
        -- change (String b s = String b (p +:+ rest)) in Hrest. congruence.
      * split; [discriminate |]. intros [rest Hrest].
        change (String b s = String a (p +:+ rest)) in Hrest. congruence.
Qed.

Lemma append_cons (c : ascii) (a b : string) : String c a +:+ b = String c (a +:+ b).
Proof. reflexivity. Qed.

Lemma append_empty (b : string) : "" +:+ b = b.
Proof. reflexivity. Qed.

Lemma includes_unfold (s p : string) :
  includes s p
  = startsWith s p || match s with
                      | EmptyString => false
                      | String _ rest => includes rest p
                      end.
Proof. destruct s; reflexivity. Qed.

Lemma includes_spec (p s : string) :
  includes s p = true <-> is_substring p s.
Proof.
  split.
  - induction s as [| c s IH]; rewrite includes_unfold, orb_true_iff.
    + intros [Hstart | Hrest]; [| discriminate].
      apply startsWith_spec in Hstart as [rest Hrest].
      now exists ""%string, rest.
    + intros [Hstart | Hrest].
      * apply startsWith_spec in Hstart as [rest Hrest].
        now exists ""%string, rest.
      * destruct (IH Hrest) as (before & after & ->).
        now exists (String c before), after.
  - intros (before & after & ->).
    induction before as [| c before IH].
    + rewrite append_empty, includes_unfold, orb_true_iff. left.
      apply startsWith_spec. now exists after.
    + rewrite append_cons, includes_unfold, IH. apply orb_true_r.
Qed.

Lemma toLowerCase_app (a b : string) :
  toLowerCase (a +:+ b) = toLowerCase a +:+ toLowerCase b.
Proof.
  induction a as [| c a IH]; [reflexivity |].
  rewrite append_cons. cbn [toLowerCase]. now rewrite IH.
Qed.

Lemma toLowerCase_app_inv (a b : string) :
  forall s, toLowerCase s = a +:+ b ->
            exists s1 s2, s = s1 +:+ s2 /\ toLowerCase s1 = a /\ toLowerCase s2 = b.
Proof.
  induction a as [| c a IH]; intros s Hs.
  - now exists ""%string, s.
  - destruct s as [| d s]; [discriminate |].
    rewrite append_cons in Hs. cbn [toLowerCase] in Hs.
    injection Hs as Hc Hrest.
    destruct (IH s Hrest) as (s1 & s2 & -> & H1 & H2).
    exists (String d s1), s2. cbn [toLowerCase]. now rewrite Hc, H1, H2.
Qed.

(** Looking for a lower-case phrase in the lower-cased text is looking
    for it in the text without regard to case. *)
Lemma includes_lower_spec (phrase text : string) :
  includes (toLowerCase text) phrase = true <-> occurs_ignoring_case phrase text.
Proof.
  rewrite includes_spec. split.
  - intros (before & after & Htext).
    apply toLowerCase_app_inv in Htext as (s1 & rest & -> & H1 & Hrest).
    apply toLowerCase_app_inv in Hrest as (s2 & s3 & -> & H2 & H3).
    now exists s1, s2, s3.
  - intros (before & middle & after & -> & <-).
    exists (toLowerCase before), (toLowerCase after).
    now rewrite !toLowerCase_app.
Qed.

Lemma startsWith_lower_spec (phrase text : string) :
  startsWith (toLowerCase text) phrase = true <-> starts_ignoring_case phrase text.
Proof.
  rewrite startsWith_spec. split.
  - intros (rest & Htext).
    apply toLowerCase_app_inv in Htext as (s1 & s2 & -> & H1 & H2).
    now exists s1, s2.
  - intros (head & rest & -> & <-).
    exists (toLowerCase rest). now rewrite toLowerCase_app.
Qed.

Lemma lower_char_question (c : ascii) : lower_char c = "?"%char -> c = "?"%char.
Proof.
  destruct c as [[] [] [] [] [] [] [] []]; vm_compute; congruence.
Qed.

(** The question mark is not a letter. *)
Lemma includes_lower_question (text : string) :
  includes (toLowerCase text) "?" = true <-> is_substring "?" text.
Proof.
  rewrite includes_lower_spec. split.
  - intros (before & middle & after & -> & Hmiddle).
    destruct middle as [| c [| ? ?]]; try discriminate.
    injection Hmiddle as Hc. apply lower_char_question in Hc as ->.
    now exists before, after.
  - intros (before & after & ->). now exists before, "?"%string, after.
Qed.

End Strings.

(** ** The intent filter *)

Section IntentClaims.
Import JSString Design Collector.

(** C7 (amended).  [hasGenuineIntent lead] holds exactly when the text of
    the lead (its title, a space, its content) contains one of the intent
    phrases, letter case apart, or looks like a question, and the lead has
    substance.  The text looks like a question when it contains [?] or when,
    as it stands, without any trimming, it starts with one of [how], [what],
    [which], [any], letter case apart.  The lead has substance when its
    content is longer than 50 characters or its title longer than 30. *)
Theorem hasGenuineIntent_spec (lead : StoredLead.t) :
  hasGenuineIntent lead = true <->
  (hasIntentKeyword (text_of lead) \/ looksLikeQuestion_untrimmed (text_of lead))
  /\ hasSubstance lead.
Proof.
  unfold hasGenuineIntent, hasIntentKeyword, looksLikeQuestion_untrimmed,
    hasSubstance. fold (text_of lead).
  rewrite andb_true_iff, !orb_true_iff, !Nat.ltb_lt, existsb_exists.
  rewrite includes_lower_question, !startsWith_lower_spec.
  assert (Hphrase :
    (exists x, In x INTENT_KEYWORDS /\ includes (toLowerCase (text_of lead)) x = true)
    <-> (exists phrase, phrase ∈ INTENT_KEYWORDS
                        /\ occurs_ignoring_case phrase (text_of lead))).
  { split; intros (phrase & Hin & Hocc); exists phrase;
      (split; [now apply list_elem_of_In | now apply includes_lower_spec]). }
  assert (Hword :
    (starts_ignoring_case "how" (text_of lead)
     \/ starts_ignoring_case "what" (text_of lead)
     \/ starts_ignoring_case "which" (text_of lead)
     \/ starts_ignoring_case "any" (text_of lead))
    <-> (exists word, word ∈ QUESTION_WORDS
                      /\ starts_ignoring_case word (text_of lead))).
  { unfold QUESTION_WORDS. split.
    - intros [Hhow | [Hwhat | [Hwhich | Hany]]];
        [exists "how"%string | exists "what"%string
        | exists "which"%string | exists "any"%string];
        (split; [in_list | assumption]).
    - intros (word & Hin & Hstart).
      rewrite !elem_of_cons, elem_of_nil in Hin.
      destruct Hin as [-> | [-> | [-> | [-> | []]]]]; tauto. }
  rewrite Hphrase, <- Hword. tauto.
Qed.

(** C7, as stated, fails: a title that starts with a space and then with
    [how] makes the document's predicate true, since the trimmed text starts
    with [how], while [hasGenuineIntent] answers no. *)
Lemma hasGenuineIntent_does_not_trim :
  hasGenuineIntent indented_question = false
  /\ (hasIntentKeyword (text_of indented_question)
      \/ looksLikeQuestion (text_of indented_question))
  /\ hasSubstance indented_question
  /\ hasGenuineIntent plain_question = true.
Proof.
  split; [reflexivity |]. split; [| split; [| reflexivity]].
  - right. right. exists "how"%string. split; [in_list |].
    exists "how"%string, " to capture a webpage as an image in node"%string.
    split; reflexivity.
  - right. vm_compute. lia.
Qed.

End IntentClaims.

(** ** Deduplication *)

Section Dedup.
Import Collector.

Lemma deduplicatePosts_from_sublist (posts : list RedditPost.t) :
  forall seen, deduplicatePosts_from seen posts `sublist_of` posts.
Proof.
  induction posts as [| post rest IH]; intros seen; cbn.
  - constructor.
  - case_decide; [apply sublist_cons | apply sublist_skip]; apply IH.
Qed.

Lemma deduplicatePosts_from_ids (posts : list RedditPost.t) :
  forall seen i,
    i ∈ RedditPost.id <$> deduplicatePosts_from seen posts
    <-> i ∈ RedditPost.id <$> posts /\ i ∉ seen.
Proof.
  induction posts as [| post rest IH]; intros seen i; cbn.
  - rewrite elem_of_nil. tauto.
  - case_decide as Hseen; rewrite ?fmap_cons, ?elem_of_cons, IH.
    + naive_solver.
    + rewrite not_elem_of_union, not_elem_of_singleton. split.
      * intros [-> | (Hin & Hne & Hnot)]; split; auto.
      * intros [[-> | Hin] Hnot]; [now left |].
        destruct (decide (i = RedditPost.id post)) as [-> | Hne]; [now left | auto].
Qed.

Lemma deduplicatePosts_from_NoDup (posts : list RedditPost.t) :
  forall seen, NoDup (RedditPost.id <$> deduplicatePosts_from seen posts).
Proof.
  induction posts as [| post rest IH]; intros seen; cbn.
  - constructor.
  - case_decide as Hseen; [apply IH |].
    rewrite fmap_cons. apply NoDup_cons. split; [| apply IH].
    rewrite deduplicatePosts_from_ids. set_solver.
Qed.

(** Starting with more ids in [seen] is dropping the posts that carry
    them first. *)
Lemma deduplicatePosts_from_union (posts : list RedditPost.t) :
  forall seen seen',
    deduplicatePosts_from (seen ∪ seen') posts
    = deduplicatePosts_from seen
        (filter (fun post => RedditPost.id post ∉ seen') posts).
Proof.
  induction posts as [| post rest IH]; intros seen seen'; [reflexivity |].
  rewrite filter_cons. cbn [deduplicatePosts_from].
  destruct (decide (RedditPost.id post ∉ seen')) as [Hnew | Hold].
  - cbn [deduplicatePosts_from].
    destruct (decide (RedditPost.id post ∈ seen)) as [Hseen | Hfresh].
    + rewrite decide_True by set_solver. apply IH.
    + rewrite decide_False by set_solver. f_equal.
      rewrite (assoc_L (∪)). apply IH.
  - rewrite decide_True by (apply dec_stable in Hold; set_solver). apply IH.
Qed.

End Dedup.

Section DedupClaims.
Import Collector.

(** C6.  [deduplicatePosts] keeps the posts in their input order, yields
    each id of the input exactly once, and keeps of each id the first post
    that carries it: the head of the input is kept and every later post with
    its id is dropped, and so on for what remains.  For ids [a, b, a, c] the
    output is the first, second and fourth post. *)
Theorem deduplicatePosts_spec (posts : list RedditPost.t) :
  deduplicatePosts posts `sublist_of` posts
  /\ NoDup (RedditPost.id <$> deduplicatePosts posts)
  /\ (forall i, i ∈ RedditPost.id <$> deduplicatePosts posts
                <-> i ∈ RedditPost.id <$> posts)
  /\ deduplicatePosts [] = []
  /\ (forall post rest,
        deduplicatePosts (post :: rest)
        = post :: deduplicatePosts
                    (filter (fun later => RedditPost.id later <> RedditPost.id post) rest))
  /\ (forall pa pb pa' pc,
        posts = [pa; pb; pa'; pc] ->
        RedditPost.id pa' = RedditPost.id pa ->
        RedditPost.id pa <> RedditPost.id pb ->
        RedditPost.id pa <> RedditPost.id pc ->
        RedditPost.id pb <> RedditPost.id pc ->
        deduplicatePosts posts = [pa; pb; pc]).
Proof.
  unfold deduplicatePosts.
  split; [apply deduplicatePosts_from_sublist |].
  split; [apply deduplicatePosts_from_NoDup |].
  split; [intros i; rewrite deduplicatePosts_from_ids; set_solver |].
  split; [reflexivity |].
  split.
  - intros post rest. cbn [deduplicatePosts_from].
    rewrite decide_False by set_solver. f_equal.
    rewrite (comm_L (∪)), deduplicatePosts_from_union. f_equal.
    apply list_filter_iff. intros later. set_solver.
  - intros pa pb pa' pc -> Haa Hab Hac Hbc. cbn [deduplicatePosts_from].
    rewrite Haa.
    repeat (first [rewrite decide_False by set_solver
                  | rewrite decide_True by set_solver]).
    reflexivity.
Qed.

Lemma deduplicatePosts_spec_witness :
  deduplicatePosts
    [sample_post "a" "first"; sample_post "b" "second";
     sample_post "a" "again"; sample_post "c" "third"]
  = [sample_post "a" "first"; sample_post "b" "second"; sample_post "c" "third"].
Proof.
  destruct (deduplicatePosts_spec
              [sample_post "a" "first"; sample_post "b" "second";
               sample_post "a" "again"; sample_post "c" "third"])
    as (_ & _ & _ & _ & _ & Hexample).
  apply (Hexample _ _ _ _ eq_refl); [reflexivity | discriminate ..].
Defined.

End DedupClaims.

(** ** Matched keywords *)

Section Keywords.
Import JSString Design Collector.

Lemma spread_Set_from_elem (items : list string) :
  forall seen x, x ∈ spread_Set_from seen items <-> x ∈ items /\ x ∉ seen.
Proof.
  induction items as [| item rest IH]; intros seen x; cbn.
  - rewrite elem_of_nil. tauto.
  - case_decide as Hseen; rewrite ?elem_of_cons, IH.
    + split; [tauto |]. intros [[-> | Hin] Hnot]; [contradiction | tauto].
    + rewrite not_elem_of_union, not_elem_of_singleton. split.
      * intros [-> | (Hin & Hne & Hnot)]; split; auto.
      * intros [[-> | Hin] Hnot]; [now left |].
        destruct (decide (x = item)) as [-> | Hne]; [now left | auto].
Qed.

Lemma spread_Set_from_NoDup (items : list string) :
  forall seen, NoDup (spread_Set_from seen items).
Proof.
  induction items as [| item rest IH]; intros seen; cbn.
  - constructor.
  - case_decide as Hseen; [apply IH |]. apply NoDup_cons. split; [| apply IH].
    rewrite spread_Set_from_elem. set_solver.
Qed.

(** A list without duplicates goes through a [Set] unchanged. *)
Lemma spread_Set_from_NoDup_id (items : list string) :
  forall seen,
    NoDup items -> (forall x, x ∈ items -> x ∉ seen) ->
    spread_Set_from seen items = items.
Proof.
  induction items as [| item rest IH]; intros seen Hnodup Hfresh; [reflexivity |].
  apply NoDup_cons in Hnodup as [Hhead Hrest]. cbn.
  rewrite decide_False by (apply Hfresh; left). f_equal.
  apply IH; [exact Hrest |]. intros x Hx.
  rewrite not_elem_of_union, not_elem_of_singleton. split.
  - intros ->. contradiction.
  - apply Hfresh. now right.
Qed.

Lemma match_keywords_spec (text : string) (keywords : list string) :
  forall matched,
    match_keywords text keywords matched
    = matched ++ List.filter (fun keyword => includes text (toLowerCase keyword)) keywords.
Proof.
  unfold match_keywords.
  induction keywords as [| keyword rest IH]; intros matched; cbn.
  - now rewrite app_nil_r.
  - rewrite IH. destruct (includes text (toLowerCase keyword)); [| reflexivity].
    now rewrite <- app_assoc.
Qed.

Lemma match_products_spec (text : string) (products : list (string * list string)) :
  forall matched,
    match_products text products matched
    = matched ++ List.filter (fun keyword => includes text (toLowerCase keyword))
                             (concat (List.map snd products)).
Proof.
  unfold match_products.
  induction products as [| product rest IH]; intros matched; cbn.
  - now rewrite app_nil_r.
  - rewrite IH, match_keywords_spec, List.filter_app. now rewrite <- app_assoc.
Qed.

Lemma NoDup_List_filter (f : string -> bool) (l : list string) :
  NoDup l -> NoDup (List.filter f l).
Proof.
  induction l as [| x l IH]; intros Hnodup; cbn; [constructor |].
  apply NoDup_cons in Hnodup as [Hhead Hrest].
  destruct (f x); [| now apply IH].
  apply NoDup_cons. split; [| now apply IH].
  rewrite list_elem_of_In, filter_In, <- list_elem_of_In. tauto.
Qed.

(** The keywords of the four products are all different. *)
Lemma PRODUCT_KEYWORDS_NoDup : NoDup (concat (List.map snd PRODUCT_KEYWORDS)).
Proof. apply (bool_decide_unpack _). vm_compute. exact I. Qed.

Lemma in_PRODUCT_KEYWORDS (keyword : string) :
  keyword ∈ concat (List.map snd PRODUCT_KEYWORDS)
  <-> exists product keywords,
        (product, keywords) ∈ PRODUCT_KEYWORDS /\ keyword ∈ keywords.
Proof.
  rewrite list_elem_of_In, in_concat. split.
  - intros (keywords & Hkeywords & Hin).
    apply in_map_iff in Hkeywords as ([product keywords'] & <- & Hproduct).
    exists product, keywords'. now rewrite !list_elem_of_In.
  - intros (product & keywords & Hproduct & Hin).
    exists keywords. split; [| now apply list_elem_of_In].
    apply in_map_iff. exists (product, keywords).
    split; [reflexivity | now apply list_elem_of_In].
Qed.

End Keywords.

Section KeywordClaims.
Import JSString Design Collector.

(** C8 (amended).  The keywords recorded on the lead of a post are exactly
    the keywords of the whole taxonomy, all products taken together and in
    the order the taxonomy lists them, whose lower-cased form occurs in the
    lower-cased text made of the title of the post, one space and its
    content; none is listed twice.  The keyword that was searched for plays
    no part. *)
Theorem findMatchedKeywords_spec (post : RedditPost.t) (now : Z) :
  let text := toLowerCase (RedditPost.title post +:+ " " +:+ RedditPost.content post) in
  let lead := transformToLead now post in
  (forall keyword,
     keyword ∈ StoredLead.matchedKeywords lead
     <-> (exists product keywords,
            (product, keywords) ∈ PRODUCT_KEYWORDS /\ keyword ∈ keywords)
         /\ is_substring (toLowerCase keyword) text)
  /\ NoDup (StoredLead.matchedKeywords lead)
  /\ StoredLead.matchedKeywords lead
     = List.filter (fun keyword => includes text (toLowerCase keyword))
                   (concat (List.map snd PRODUCT_KEYWORDS)).
Proof.
  intros text lead.
  change (StoredLead.matchedKeywords lead) with (findMatchedKeywords post).
  assert (Hequation :
    findMatchedKeywords post
    = List.filter (fun keyword => includes text (toLowerCase keyword))
                  (concat (List.map snd PRODUCT_KEYWORDS))).
  { unfold findMatchedKeywords. fold text.
    rewrite match_products_spec, app_nil_l.
    apply spread_Set_from_NoDup_id; [| intros x _; apply not_elem_of_empty].
    apply NoDup_List_filter, PRODUCT_KEYWORDS_NoDup. }
  split; [| split; [| exact Hequation]].
  - intros keyword.
    rewrite Hequation, list_elem_of_In, filter_In, <- list_elem_of_In.
    now rewrite in_PRODUCT_KEYWORDS, includes_spec.
  - apply spread_Set_from_NoDup.
Qed.

(** C8, as stated, fails: the text that is matched is not the bare
    concatenation of the title and the content, since a space is put between
    them.  A title that ends with [screenshot] and a content that begins
    with [API] give the keyword [screenshot api], which does not occur in
    their concatenation; and [pdf api] occurs in the concatenation of a
    title that ends with [PDF] and a content that begins with a space and
    [API], and is not given. *)
Lemma findMatchedKeywords_joins_with_a_space :
  "screenshot api"%string
    ∈ StoredLead.matchedKeywords (transformToLead 0 Pipeline.split_keyword_post)
  /\ ~ is_substring (toLowerCase "screenshot api")
                    (toLowerCase (Pipeline.concatenation Pipeline.split_keyword_post))
  /\ is_substring (toLowerCase "pdf api")
                  (toLowerCase (Pipeline.concatenation Pipeline.spaced_post))
  /\ "pdf api"%string
       ∉ StoredLead.matchedKeywords (transformToLead 0 Pipeline.spaced_post).
Proof.
  split; [| split; [| split]].
  - vm_compute. in_list.
  - rewrite <- includes_spec. vm_compute. discriminate.
  - rewrite <- includes_spec. vm_compute. reflexivity.
  - apply (bool_decide_unpack _). vm_compute. exact I.
Qed.

(** A post found by any search gets the keywords of every product its text
    mentions. *)
Example findMatchedKeywords_across_products :
  findMatchedKeywords
    (sample_post "abc" "Screenshot API or an HTML to PDF service for a Mac calculator?")
  = ["screenshot api"; "mac calculator"; "html to pdf"].
Proof. reflexivity. Qed.

End KeywordClaims.

(** * Further properties *)

(** ** The token bucket over time *)

Section BucketUse.
Import RateLimiter Usage.

Variable config : RateLimitConfig.











End BucketUse.

Section BucketUseTheorems.
Import RateLimiter Usage.







End BucketUseTheorems.

(** ** The executor, attempt by attempt *)

Section Attempted.
Import RateLimiter Executor Attempts.

Context {T : Type}.
Variable limiter : RateLimitConfig.
Variable fn : Task T.

Ltac unroll :=
  repeat first
    [ rewrite loop_exit by lia
    | rewrite loop_body by lia;
      match goal with
      | |- context [match fn ?k with Resolved _ => _ | Rejected _ => _ end] =>
          destruct (fn k) as [? | [? ? | ?]] eqn:?
      end;
      try match goal with
          | |- context [if shouldRetry limiter ?a then _ else _] =>
              destruct (shouldRetry limiter a) eqn:?
          end ].

Ltac attempt k :=
  destruct k as [| [| [| [| k]]]]; [| | | | exfalso; cbn in *; lia].

Ltac pick :=
  cbn [adjacent];
  repeat first [ left; split; congruence | right ].

(** The log of a run, read from its two ends. *)
Lemma withRateLimit_log :
  exists r : Run T,
    withRateLimit limiter fn = Some r
    /\ (forall k, (k < calls r)%nat -> adjacent EvWaitForToken (EvCall k) (log r))
    /\ acquired (log r) = calls r
    /\ result r = fn (pred (calls r))
    /\ (forall message retryAfter,
          calls r = 4%nat -> fn 3%nat = Rejected (RateLimitError message retryAfter) ->
          last (log r) = Some (EvHandleRateLimit retryAfter))
    /\ (forall message,
          calls r = 4%nat -> fn 3%nat = Rejected (OtherError message) ->
          shouldRetry limiter 3 = true ->
          last (log r) = Some (EvBackoff (getBackoffDelay limiter 3))).
Proof.
  unfold withRateLimit. unroll;
    unfold after; cbn [option_map app calls result log];
    (eexists; split; [reflexivity |]);
    cbn [calls result log pred];
    (split; [| split; [reflexivity | split; [congruence | split]]]).
  all: intros k; intros.
  all: try (attempt k; pick).
  all: try discriminate.
  all: try (cbn; congruence).
  all: lia.
Qed.

(** The loop for tasks that throw anything. *)
Lemma thrown_loop_exit {A : Type} (task : Thrown.Task A)
    (fuel attempt invoked : nat) (lastError : option Thrown.Value) :
  (3 < attempt)%nat ->
  Thrown.loop fuel limiter task attempt invoked lastError
  = Some {| Thrown.result :=
              Thrown.Threw
                (match lastError with
                 | Some (Thrown.Truthy error) => Thrown.Truthy error
                 | Some Thrown.Falsy | None =>
                     Thrown.Truthy (OtherError "Max retries exceeded")
                 end);
            Thrown.calls := invoked |}.
Proof.
  intros Hexit. destruct fuel; cbn [Thrown.loop]; rewrite loop_condition;
    apply Nat.leb_gt in Hexit; rewrite Hexit; reflexivity.
Qed.

Lemma thrown_loop_body {A : Type} (task : Thrown.Task A)
    (fuel attempt invoked : nat) (lastError : option Thrown.Value) :
  (attempt <= 3)%nat ->
  Thrown.loop (S fuel) limiter task attempt invoked lastError
  = match task invoked with
    | Thrown.Returned value =>
        Some {| Thrown.result := Thrown.Returned value; Thrown.calls := S invoked |}
    | Thrown.Threw thrown =>
        match thrown with
        | Thrown.Truthy (RateLimitError _ _) =>
            Thrown.loop fuel limiter task (S attempt) (S invoked) (Some thrown)
        | Thrown.Truthy (OtherError _) | Thrown.Falsy =>
            if shouldRetry limiter attempt then
              Thrown.loop fuel limiter task (S attempt) (S invoked) (Some thrown)
            else
              Some {| Thrown.result := Thrown.Threw thrown; Thrown.calls := S invoked |}
        end
    end.
Proof.
  intros Hin. cbn [Thrown.loop]. rewrite loop_condition.
  apply Nat.leb_le in Hin. rewrite Hin. reflexivity.
Qed.

Ltac unroll_thrown task :=
  repeat first
    [ rewrite thrown_loop_exit by lia
    | rewrite thrown_loop_body by lia;
      match goal with
      | |- context [match task ?k with Thrown.Returned _ => _ | Thrown.Threw _ => _ end] =>
          destruct (task k) as [? | [[? ? | ?] |]] eqn:?
      end;
      try match goal with
          | |- context [if shouldRetry limiter ?a then _ else _] =>
              destruct (shouldRetry limiter a) eqn:?
          end ].

Lemma thrown_run (task : Thrown.Task T) :
  exists r : Thrown.Run T,
    Thrown.withRateLimit limiter task = Some r
    /\ (1 <= Thrown.calls r <= 4)%nat
    /\ (Thrown.calls r = 4%nat /\ task 3%nat = Thrown.Threw Thrown.Falsy
        /\ shouldRetry limiter 3 = true ->
        Thrown.result r
        = Thrown.Threw (Thrown.Truthy (OtherError "Max retries exceeded")))
    /\ (~ (Thrown.calls r = 4%nat /\ task 3%nat = Thrown.Threw Thrown.Falsy
           /\ shouldRetry limiter 3 = true) ->
        Thrown.result r = task (pred (Thrown.calls r))).
Proof.
  unfold Thrown.withRateLimit. unroll_thrown task;
    (eexists; split; [reflexivity |]);
    cbn [Thrown.calls Thrown.result pred];
    (split; [lia |]); split.
  all: try (intros (? & ? & ?); congruence).
  all: try (intros _; congruence).
  all: intros Hnot; exfalso; apply Hnot; auto.
Qed.

(** On a task that throws errors only, the two loops agree. *)
Lemma thrown_of_outcome (task : Thrown.Task T) :
  (forall k, task k = Thrown.of_outcome (fn k)) ->
  Thrown.withRateLimit limiter task
  = option_map Thrown.of_run (withRateLimit limiter fn).
Proof.
  intros Htask. unfold Thrown.withRateLimit, withRateLimit.
  unroll;
    unfold after; cbn [option_map];
    repeat (rewrite ?thrown_loop_exit by lia; rewrite ?thrown_loop_body by lia;
            rewrite ?Htask;
            repeat match goal with
                   | H : fn _ = _ |- _ => rewrite H
                   | H : shouldRetry limiter _ = _ |- _ => rewrite H
                   end;
            cbn [Thrown.of_outcome]);
    reflexivity.
Qed.

End Attempted.

Section AttemptedTheorems.
Import RateLimiter Executor Attempts.

(** X6.  Every invocation of the task comes right after an awaited
    [limiter.waitForToken()], and the run acquires exactly as many tokens
    as it makes invocations, whatever the limiter's configuration and
    however the invocations settle. *)
Theorem every_attempt_acquires
    (T : Type) (limiter : RateLimitConfig) (fn : Task T) :
  exists r : Run T,
    withRateLimit limiter fn = Some r
    /\ (forall k, (k < calls r)%nat -> adjacent EvWaitForToken (EvCall k) (log r))
    /\ acquired (log r) = calls r.
Proof.
  destruct (withRateLimit_log limiter fn) as (r & Hrun & Hbefore & Hcount & _).
  exists r. auto.
Qed.

Lemma every_attempt_acquires_witness :
  exists r : Run nat,
    withRateLimit DEFAULT_RATE_LIMIT_CONFIG fails_once = Some r
    /\ adjacent EvWaitForToken (EvCall 1) (log r).
Proof.
  destruct (every_attempt_acquires nat DEFAULT_RATE_LIMIT_CONFIG fails_once)
    as (r & Hrun & Hbefore & _).
  exists r. split; [exact Hrun |]. apply Hbefore.
  vm_compute in Hrun. injection Hrun as <-. cbn. lia.
Defined.

(** X7.  A run settles the way its last invocation of the task settled:
    it resolves to the value of that invocation or rejects with what that
    invocation threw.  There is one exception: when the fourth invocation
    throws a falsy value and the limiter's [shouldRetry] would retry it, the
    run rejects with the error [Max retries exceeded].  A task that throws
    errors only, as those of [Executor] do, never meets the exception, and
    its run here is its run there. *)
Theorem settles_as_last_attempt
    (T : Type) (limiter : RateLimitConfig) (fn : Thrown.Task T) :
  exists r : Thrown.Run T,
    Thrown.withRateLimit limiter fn = Some r
    /\ (1 <= Thrown.calls r <= 4)%nat
    /\ (Thrown.calls r = 4%nat /\ fn 3%nat = Thrown.Threw Thrown.Falsy
        /\ shouldRetry limiter 3 = true ->
        Thrown.result r
        = Thrown.Threw (Thrown.Truthy (OtherError "Max retries exceeded")))
    /\ (~ (Thrown.calls r = 4%nat /\ fn 3%nat = Thrown.Threw Thrown.Falsy
           /\ shouldRetry limiter 3 = true) ->
        Thrown.result r = fn (pred (Thrown.calls r)))
    /\ (forall task : Task T,
          (forall k, fn k = Thrown.of_outcome (task k)) ->
          option_map Thrown.of_run (withRateLimit limiter task) = Some r
          /\ Thrown.result r = fn (pred (Thrown.calls r))).
Proof.
  destruct (thrown_run limiter fn) as (r & Hrun & Hcalls & Hfallback & Hlast).
  exists r. split; [exact Hrun |]. split; [exact Hcalls |].
  split; [exact Hfallback |]. split; [exact Hlast |].
  intros task Htask.
  assert (Hsame : option_map Thrown.of_run (withRateLimit limiter task) = Some r).
  { rewrite <- Hrun. symmetry. now apply thrown_of_outcome. }
  split; [exact Hsame |].
  apply Hlast. intros (_ & Hfalsy & _).
  rewrite Htask in Hfalsy. destruct (task 3%nat); discriminate.
Qed.

(** A task that throws [undefined] each time, with a limiter configured for
    ten retries: four invocations, and the error [Max retries exceeded]. *)
Lemma settles_as_last_attempt_witness :
  exists r : Thrown.Run nat,
    Thrown.withRateLimit ten_retries_config Thrown.throws_undefined = Some r
    /\ Thrown.calls r = 4%nat
    /\ Thrown.result r
       = Thrown.Threw (Thrown.Truthy (OtherError "Max retries exceeded")).
Proof.
  destruct (settles_as_last_attempt nat ten_retries_config Thrown.throws_undefined)
    as (r & Hrun & _ & Hfallback & _).
  assert (Hcalls : Thrown.calls r = 4%nat).
  { vm_compute in Hrun. injection Hrun as <-. reflexivity. }
  exists r. split; [exact Hrun |]. split; [exact Hcalls |].
  apply Hfallback. split; [exact Hcalls |]. split; reflexivity.
Defined.



End AttemptedTheorems.

(** ** Authentication and requests *)

Section Transported.
Import RateLimiter Executor RedditClient Transport.

Context {T : Type}.
Variable limiter : RateLimitConfig.
Variable fn : Task T.

(** Four throttled invocations: four enforced waits, then the last error. *)
Lemma withRateLimit_all_throttled (m0 m1 m2 m3 : string) (r0 r1 r2 r3 : option Q) :
  fn 0%nat = Rejected (RateLimitError m0 r0) ->
  fn 1%nat = Rejected (RateLimitError m1 r1) ->
  fn 2%nat = Rejected (RateLimitError m2 r2) ->
  fn 3%nat = Rejected (RateLimitError m3 r3) ->
  withRateLimit limiter fn
  = Some {| result := Rejected (RateLimitError m3 r3);
            calls := 4;
            log := [EvWaitForToken; EvCall 0; EvHandleRateLimit r0;
                    EvWaitForToken; EvCall 1; EvHandleRateLimit r1;
                    EvWaitForToken; EvCall 2; EvHandleRateLimit r2;
                    EvWaitForToken; EvCall 3; EvHandleRateLimit r3] |}.
Proof.
  intros H0 H1 H2 H3. unfold withRateLimit.
  rewrite loop_body, H0 by lia. rewrite loop_body, H1 by lia.
  rewrite loop_body, H2 by lia. rewrite loop_body, H3 by lia.
  rewrite loop_exit by lia. reflexivity.
Qed.

(** Four invocations that fail otherwise, with a limiter that retries
    three times. *)
Lemma withRateLimit_all_transient (m0 m1 m2 m3 : string) :
  shouldRetry limiter 0 = true -> shouldRetry limiter 1 = true ->
  shouldRetry limiter 2 = true -> shouldRetry limiter 3 = false ->
  fn 0%nat = Rejected (OtherError m0) ->
  fn 1%nat = Rejected (OtherError m1) ->
  fn 2%nat = Rejected (OtherError m2) ->
  fn 3%nat = Rejected (OtherError m3) ->
  withRateLimit limiter fn
  = Some {| result := Rejected (OtherError m3);
            calls := 4;
            log := [EvWaitForToken; EvCall 0;
                    EvOnRetry 0 (OtherError m0); EvBackoff (getBackoffDelay limiter 0);
                    EvWaitForToken; EvCall 1;
                    EvOnRetry 1 (OtherError m1); EvBackoff (getBackoffDelay limiter 1);
                    EvWaitForToken; EvCall 2;
                    EvOnRetry 2 (OtherError m2); EvBackoff (getBackoffDelay limiter 2);
                    EvWaitForToken; EvCall 3] |}.
Proof.
  intros S0 S1 S2 S3 H0 H1 H2 H3. unfold withRateLimit.
  rewrite loop_body, H0, S0 by lia. rewrite loop_body, H1, S1 by lia.
  rewrite loop_body, H2, S2 by lia. rewrite loop_body, H3, S3 by lia.
  reflexivity.
Qed.

(** One throttled invocation, then a value. *)
Lemma withRateLimit_throttled_once (m0 : string) (r0 : option Q) (value : T) :
  fn 0%nat = Rejected (RateLimitError m0 r0) ->
  fn 1%nat = Resolved value ->
  withRateLimit limiter fn
  = Some {| result := Resolved value;
            calls := 2;
            log := [EvWaitForToken; EvCall 0; EvHandleRateLimit r0;
                    EvWaitForToken; EvCall 1] |}.
Proof.
  intros H0 H1. unfold withRateLimit.
  rewrite loop_body, H0 by lia. rewrite loop_body, H1 by lia. reflexivity.
Qed.

End Transported.

Section TransportTheorems.
Import RateLimiter Executor RedditClient Transport.



(** X10.  A request that cannot authenticate makes no fetch of the API.
    When the stored token is not valid and the token endpoint answers with
    a status outside 200-299, or the exchange fails otherwise, [request]
    rejects with that failure ([Reddit auth failed: <status>] in the first
    case) before the executor is entered. *)
Theorem request_needs_authentication
    (Number_toString : Z -> string) (client : t) (now later : Z)
    (exchange : Outcome (Response RedditTokenResponse))
    (fetches : nat -> Outcome (Response RedditSearchResponse)) :
  token_valid client now = false ->
  (forall response, exchange = Resolved response -> ok response = false) ->
  exists error,
    request Number_toString client now exchange later fetches
    = Some (Unauthenticated error)
    /\ fetched (Unauthenticated error) = 0%nat
    /\ (forall e, exchange = Rejected e -> error = e)
    /\ (forall response, exchange = Resolved response ->
         error = OtherError ("Reddit auth failed: " +:+ Number_toString (status response))).
Proof.
  intros Hstale Hbad. unfold request, authenticate. rewrite Hstale.
  destruct exchange as [response | e].
  - rewrite (Hbad response eq_refl). cbn [negb].
    eexists. split; [reflexivity |]. split; [reflexivity |].
    split; [discriminate |]. intros ? [= <-]. reflexivity.
  - eexists. split; [reflexivity |]. split; [reflexivity |].
    split; [intros ? [= <-]; reflexivity | discriminate].
Qed.

Lemma request_needs_authentication_witness :
  exists error,
    request decimal fresh_client 0
      (Resolved {| status := 401; retryAfterHeader := None;
                   json := Rejected (OtherError "Unauthorized") |})
      0 always_503
    = Some (Unauthenticated error)
    /\ error = OtherError "Reddit auth failed: 401".
Proof.
  destruct (request_needs_authentication decimal fresh_client 0 0
              (Resolved {| status := 401; retryAfterHeader := None;
                           json := Rejected (OtherError "Unauthorized") |})
              always_503)
    as (error & Hrequest & _ & _ & Hstatus).
  - reflexivity.
  - intros response [= <-]. reflexivity.
  - exists error. split; [exact Hrequest |]. exact (Hstatus _ eq_refl).
Defined.

(** X11.  Against a server that answers 429 to each of the first four
    fetches, an authenticated [request] makes exactly four fetches, sleeps
    after each of them for the time that response asks for, the fourth
    included, and rejects with the [RateLimitError] of the fourth. *)
Theorem request_throttled_throughout
    (Number_toString : Z -> string) (client : t) (now later : Z)
    (exchange : Outcome (Response RedditTokenResponse))
    (fetches : nat -> Outcome (Response RedditSearchResponse))
    (r0 r1 r2 r3 : Response RedditSearchResponse) :
  token_valid client now = true ->
  fetches 0%nat = Resolved r0 -> fetches 1%nat = Resolved r1 ->
  fetches 2%nat = Resolved r2 -> fetches 3%nat = Resolved r3 ->
  status r0 = 429%Z -> status r1 = 429%Z -> status r2 = 429%Z -> status r3 = 429%Z ->
  exists q,
    request Number_toString client now exchange later fetches = Some q
    /\ fetched q = 4%nat
    /\ settled q = Rejected (RateLimitError "Rate limited by Reddit" (retry_hint r3))
    /\ sleeps DEFAULT_RATE_LIMIT_CONFIG (events q)
       = [throttle_sleep r0; throttle_sleep r1; throttle_sleep r2; throttle_sleep r3].
Proof.
  intros Hvalid F0 F1 F2 F3 S0 S1 S2 S3.
  unfold request, authenticate. rewrite Hvalid.
  rewrite (withRateLimit_all_throttled DEFAULT_RATE_LIMIT_CONFIG
             (fetch_task Number_toString fetches)
             "Rate limited by Reddit" "Rate limited by Reddit"
             "Rate limited by Reddit" "Rate limited by Reddit"
             (retry_hint r0) (retry_hint r1) (retry_hint r2) (retry_hint r3)).
  - eexists. split; [reflexivity |]. repeat split.
  - unfold fetch_task. now rewrite F0, S0.
  - unfold fetch_task. now rewrite F1, S1.
  - unfold fetch_task. now rewrite F2, S2.
  - unfold fetch_task. now rewrite F3, S3.
Qed.

Lemma request_throttled_throughout_witness :
  exists q,
    request decimal signed_in 1000 (Resolved hour_token) 1000 always_429 = Some q
    /\ fetched q = 4%nat
    /\ sleeps DEFAULT_RATE_LIMIT_CONFIG (events q) = [60000; 60000; 60000; 60000].
Proof.
  destruct (request_throttled_throughout decimal signed_in 1000 1000
              (Resolved hour_token) always_429
              {| status := 429; retryAfterHeader := None; json := Resolved empty_listing |}
              {| status := 429; retryAfterHeader := None; json := Resolved empty_listing |}
              {| status := 429; retryAfterHeader := None; json := Resolved empty_listing |}
              {| status := 429; retryAfterHeader := None; json := Resolved empty_listing |}
              eq_refl eq_refl eq_refl eq_refl eq_refl eq_refl eq_refl eq_refl eq_refl)
    as (q & Hrequest & Hfetched & _ & Hsleeps).
  exists q. split; [exact Hrequest |]. split; [exact Hfetched | exact Hsleeps].
Defined.

(** X12.  Against a server that answers each of the first four fetches
    with a status that is neither 429 nor a success, an authenticated
    [request] makes exactly four fetches, each one right after an awaited
    [waitForToken], and rejects with [Reddit API error: <status>] for the
    fourth status.  After each of the first three failures it takes the
    backoff sleep of that attempt, 1, 2 and 4 seconds, and after the fourth
    none; these come on top of whatever [waitForToken] sleeps. *)
Theorem request_failing_throughout
    (Number_toString : Z -> string) (client : t) (now later : Z)
    (exchange : Outcome (Response RedditTokenResponse))
    (fetches : nat -> Outcome (Response RedditSearchResponse))
    (r0 r1 r2 r3 : Response RedditSearchResponse) :
  token_valid client now = true ->
  fetches 0%nat = Resolved r0 -> fetches 1%nat = Resolved r1 ->
  fetches 2%nat = Resolved r2 -> fetches 3%nat = Resolved r3 ->
  status r0 <> 429%Z -> status r1 <> 429%Z -> status r2 <> 429%Z -> status r3 <> 429%Z ->
  ok r0 = false -> ok r1 = false -> ok r2 = false -> ok r3 = false ->
  exists q,
    request Number_toString client now exchange later fetches = Some q
    /\ fetched q = 4%nat
    /\ settled q
       = Rejected (OtherError ("Reddit API error: " +:+ Number_toString (status r3)))
    /\ sleeps DEFAULT_RATE_LIMIT_CONFIG (events q) = [1000; 2000; 4000]
    /\ events q
       = [EvWaitForToken; EvCall 0;
          EvOnRetry 0 (OtherError ("Reddit API error: " +:+ Number_toString (status r0)));
          EvBackoff (getBackoffDelay DEFAULT_RATE_LIMIT_CONFIG 0);
          EvWaitForToken; EvCall 1;
          EvOnRetry 1 (OtherError ("Reddit API error: " +:+ Number_toString (status r1)));
          EvBackoff (getBackoffDelay DEFAULT_RATE_LIMIT_CONFIG 1);
          EvWaitForToken; EvCall 2;
          EvOnRetry 2 (OtherError ("Reddit API error: " +:+ Number_toString (status r2)));
          EvBackoff (getBackoffDelay DEFAULT_RATE_LIMIT_CONFIG 2);
          EvWaitForToken; EvCall 3].
Proof.
  intros Hvalid F0 F1 F2 F3 S0 S1 S2 S3 K0 K1 K2 K3.
  unfold request, authenticate. rewrite Hvalid.
  apply Z.eqb_neq in S0, S1, S2, S3.
  rewrite (withRateLimit_all_transient DEFAULT_RATE_LIMIT_CONFIG
             (fetch_task Number_toString fetches)
             ("Reddit API error: " +:+ Number_toString (status r0))
             ("Reddit API error: " +:+ Number_toString (status r1))
             ("Reddit API error: " +:+ Number_toString (status r2))
             ("Reddit API error: " +:+ Number_toString (status r3)));
    try reflexivity.
  - eexists. split; [reflexivity |]. repeat split.
  - unfold fetch_task. now rewrite F0, S0, K0.
  - unfold fetch_task. now rewrite F1, S1, K1.
  - unfold fetch_task. now rewrite F2, S2, K2.
  - unfold fetch_task. now rewrite F3, S3, K3.
Qed.

Lemma request_failing_throughout_witness :
  exists q,
    request decimal signed_in 1000 (Resolved hour_token) 1000 always_503 = Some q
    /\ fetched q = 4%nat
    /\ settled q = Rejected (OtherError "Reddit API error: 503")
    /\ sleeps DEFAULT_RATE_LIMIT_CONFIG (events q) = [1000; 2000; 4000]
    /\ Attempts.acquired (events q) = 4%nat.
Proof.
  destruct (request_failing_throughout decimal signed_in 1000 1000
              (Resolved hour_token) always_503
              {| status := 503; retryAfterHeader := None; json := Resolved empty_listing |}
              {| status := 503; retryAfterHeader := None; json := Resolved empty_listing |}
              {| status := 503; retryAfterHeader := None; json := Resolved empty_listing |}
              {| status := 503; retryAfterHeader := None; json := Resolved empty_listing |})
    as (q & Hrequest & Hfetched & Hsettled & Hsleeps & Hevents);
    try reflexivity; try discriminate.
  exists q. split; [exact Hrequest |]. split; [exact Hfetched |].
  split; [exact Hsettled |]. split; [exact Hsleeps |].
  rewrite Hevents. reflexivity.
Defined.

(** X13.  When the first fetch is answered 429 and the second succeeds, an
    authenticated [request] resolves to the decoded body of the second
    after exactly two fetches, each one right after an awaited
    [waitForToken].  Between the two it awaits [handleRateLimitResponse]
    once, which sleeps the time the 429 response asks for, and it takes no
    backoff sleep; what the two calls of [waitForToken] sleep comes on top
    of that. *)
Theorem request_throttled_once
    (Number_toString : Z -> string) (client : t) (now later : Z)
    (exchange : Outcome (Response RedditTokenResponse))
    (fetches : nat -> Outcome (Response RedditSearchResponse))
    (r0 r1 : Response RedditSearchResponse) (listing : RedditSearchResponse) :
  token_valid client now = true ->
  fetches 0%nat = Resolved r0 -> fetches 1%nat = Resolved r1 ->
  status r0 = 429%Z -> ok r1 = true -> json r1 = Resolved listing ->
  exists q,
    request Number_toString client now exchange later fetches = Some q
    /\ fetched q = 2%nat
    /\ settled q = Resolved listing
    /\ sleeps DEFAULT_RATE_LIMIT_CONFIG (events q) = [throttle_sleep r0]
    /\ events q
       = [EvWaitForToken; EvCall 0; EvHandleRateLimit (retry_hint r0);
          EvWaitForToken; EvCall 1].
Proof.
  intros Hvalid F0 F1 S0 K1 J1.
  unfold request, authenticate. rewrite Hvalid.
  rewrite (withRateLimit_throttled_once DEFAULT_RATE_LIMIT_CONFIG
             (fetch_task Number_toString fetches)
             "Rate limited by Reddit" (retry_hint r0) listing).
  - eexists. split; [reflexivity |]. repeat split.
  - unfold fetch_task. now rewrite F0, S0.
  - unfold fetch_task. rewrite F1, K1.
    assert (Hnot : (status r1 =? 429)%Z = false).
    { apply Z.eqb_neq. unfold ok in K1.
      apply andb_true_iff in K1 as [_ Hhigh]. apply Z.leb_le in Hhigh. lia. }
    now rewrite Hnot.
Qed.

Lemma request_throttled_once_witness :
  exists q,
    request decimal signed_in 1000 (Resolved hour_token) 1000 throttled_once = Some q
    /\ fetched q = 2%nat
    /\ settled q = Resolved empty_listing
    /\ sleeps DEFAULT_RATE_LIMIT_CONFIG (events q) = [7000]
    /\ Attempts.acquired (events q) = 2%nat.
Proof.
  destruct (request_throttled_once decimal signed_in 1000 1000
              (Resolved hour_token) throttled_once
              {| status := 429; retryAfterHeader := Some "7"%string;
                 json := Resolved empty_listing |}
              {| status := 200; retryAfterHeader := None; json := Resolved empty_listing |}
              empty_listing)
    as (q & Hrequest & Hfetched & Hsettled & Hsleeps & Hevents);
    try reflexivity.
  exists q. split; [exact Hrequest |]. split; [exact Hfetched |].
  split; [exact Hsettled |]. split; [exact Hsleeps |].
  rewrite Hevents. reflexivity.
Defined.




End TransportTheorems.

(** ** Posts, keywords and leads *)

Section Posts.
Import JSString Design Collector Pipeline.

Lemma deduplicatePosts_from_id (posts : list RedditPost.t) :
  forall seen,
    NoDup (RedditPost.id <$> posts) ->
    (forall i, i ∈ RedditPost.id <$> posts -> i ∉ seen) ->
    deduplicatePosts_from seen posts = posts.
Proof.
  induction posts as [| post rest IH]; intros seen Hnodup Hfresh; [reflexivity |].
  rewrite fmap_cons in Hnodup, Hfresh.
  apply NoDup_cons in Hnodup as [Hhead Hrest]. cbn [deduplicatePosts_from].
  rewrite decide_False by (apply Hfresh; left). f_equal.
  apply IH; [exact Hrest |]. intros i Hi.
  rewrite not_elem_of_union, not_elem_of_singleton. split.
  - intros ->. contradiction.
  - apply Hfresh. now right.
Qed.

Lemma deduplicatePosts_from_app (first second : list RedditPost.t) :
  forall seen,
    deduplicatePosts_from seen (first ++ second)
    = deduplicatePosts_from seen first
      ++ deduplicatePosts_from (seen ∪ list_to_set (RedditPost.id <$> first)) second.
Proof.
  induction first as [| post rest IH]; intros seen.
  - cbn. f_equal. set_solver.
  - rewrite <- app_comm_cons. cbn [deduplicatePosts_from].
    rewrite fmap_cons, list_to_set_cons.
    destruct (decide (RedditPost.id post ∈ seen)) as [Hseen | Hfresh].
    + rewrite IH. do 2 f_equal. set_solver.
    + rewrite IH, <- app_comm_cons. do 3 f_equal. set_solver.
Qed.

Lemma same_letter_lower (c d : ascii) :
  same_letter c d = true -> lower_char c = lower_char d.
Proof.
  unfold same_letter, lower_char.
  rewrite !orb_true_iff, !andb_true_iff, !Nat.eqb_eq, !Nat.leb_le.
  intros [[Hsame | [[Hlow Hhigh] Hshift]] | [[Hlow Hhigh] Hshift]].
  - rewrite <- (ascii_nat_embedding c), <- (ascii_nat_embedding d), Hsame.
    reflexivity.
  - assert (Hletter : ((65 <=? nat_of_ascii c) && (nat_of_ascii c <=? 90))%nat = true)
      by (apply andb_true_iff; split; apply Nat.leb_le; lia).
    assert (Hsmall : ((65 <=? nat_of_ascii d) && (nat_of_ascii d <=? 90))%nat = false)
      by (apply andb_false_iff; right; apply Nat.leb_gt; lia).
    rewrite Hletter, Hsmall, <- Hshift. now rewrite ascii_nat_embedding.
  - assert (Hletter : ((65 <=? nat_of_ascii d) && (nat_of_ascii d <=? 90))%nat = true)
      by (apply andb_true_iff; split; apply Nat.leb_le; lia).
    assert (Hsmall : ((65 <=? nat_of_ascii c) && (nat_of_ascii c <=? 90))%nat = false)
      by (apply andb_false_iff; right; apply Nat.leb_gt; lia).
    rewrite Hletter, Hsmall, <- Hshift. now rewrite ascii_nat_embedding.
Qed.

Lemma equal_up_to_case_lower (s t : string) :
  equal_up_to_case s t = true ->
  toLowerCase s = toLowerCase t /\ String.length s = String.length t.
Proof.
  revert t. induction s as [| c s IH]; intros [| d t]; cbn; try discriminate.
  - intros _. split; reflexivity.
  - rewrite andb_true_iff. intros [Hletter Hrest].
    destruct (IH t Hrest) as [Hlower Hlength].
    now rewrite (same_letter_lower c d Hletter), Hlower, Hlength.
Qed.

Lemma matched_keyword (matched keywords : list string) :
  existsb (fun keyword => bool_decide (keyword ∈ matched)) keywords = true
  <-> exists keyword, keyword ∈ keywords /\ keyword ∈ matched.
Proof.
  rewrite existsb_exists. split; intros (keyword & Hin & Hmatched); exists keyword.
  - split; [now apply list_elem_of_In | now apply bool_decide_eq_true in Hmatched].
  - split; [now apply list_elem_of_In | now apply bool_decide_eq_true].
Qed.

Lemma findMatchedProduct_in_None (matched : list string)
    (products : list (string * list string)) :
  findMatchedProduct_in matched products = None
  <-> forall keyword, keyword ∈ concat (List.map snd products) -> keyword ∉ matched.
Proof.
  induction products as [| [name keywords] rest IH]; cbn.
  - split; [| reflexivity]. intros _ keyword Hin. now apply elem_of_nil in Hin.
  - destruct (existsb _ keywords) eqn:Hany.
    + split; [discriminate |]. intros Hnone. exfalso.
      apply matched_keyword in Hany as (keyword & Hin & Hmatched).
      apply (Hnone keyword); [| exact Hmatched].
      apply elem_of_app. now left.
    + rewrite IH. split.
      * intros Hrest keyword Hin. apply elem_of_app in Hin as [Hin | Hin].
        -- intros Hmatched.
           assert (Hex : existsb (fun keyword => bool_decide (keyword ∈ matched)) keywords
                         = true)
             by (apply matched_keyword; eauto).
           congruence.
        -- now apply Hrest.
      * intros Hall keyword Hin. apply Hall, elem_of_app. now right.
Qed.

Lemma findMatchedProduct_in_Some (matched : list string)
    (products : list (string * list string)) :
  forall product,
    findMatchedProduct_in matched products = Some product ->
    exists before keywords after,
      products = before ++ (product, keywords) :: after
      /\ (exists keyword, keyword ∈ keywords /\ keyword ∈ matched)
      /\ (forall keyword, keyword ∈ concat (List.map snd before) -> keyword ∉ matched).
Proof.
  induction products as [| [name keywords] rest IH]; intros product; cbn;
    [discriminate |].
  destruct (existsb _ keywords) eqn:Hany.
  - intros [= <-]. exists [], keywords, rest. split; [reflexivity |]. split.
    + now apply matched_keyword.
    + intros keyword Hin. now apply elem_of_nil in Hin.
  - intros Hrest.
    destruct (IH product Hrest) as (before & keywords' & after & -> & Hsome & Hnone).
    exists ((name, keywords) :: before), keywords', after.
    split; [reflexivity |]. split; [exact Hsome |].
    intros keyword Hin. cbn in Hin. apply elem_of_app in Hin as [Hin | Hin].
    + intros Hmatched.
      assert (Hex : existsb (fun keyword => bool_decide (keyword ∈ matched)) keywords
                    = true)
        by (apply matched_keyword; eauto).
      congruence.
    + now apply Hnone.
Qed.

End Posts.

Section PostTheorems.
Import JSString Design Collector Pipeline.

(** X15.  [deduplicatePosts] changes nothing in a list whose ids are all
    different, so applying it twice is applying it once; and on two batches
    put end to end it keeps of the second batch only the posts whose id the
    first batch does not have. *)
Theorem deduplicatePosts_idempotent (posts more : list RedditPost.t) :
  (NoDup (RedditPost.id <$> posts) -> deduplicatePosts posts = posts)
  /\ deduplicatePosts (deduplicatePosts posts) = deduplicatePosts posts
  /\ deduplicatePosts (posts ++ more)
     = deduplicatePosts posts
       ++ deduplicatePosts
            (filter (fun post => RedditPost.id post ∉ RedditPost.id <$> posts) more).
Proof.
  assert (Hid : forall l, NoDup (RedditPost.id <$> l) -> deduplicatePosts l = l).
  { intros l Hnodup. apply deduplicatePosts_from_id; [exact Hnodup |].
    intros i _. apply not_elem_of_empty. }
  split; [apply Hid |]. split.
  - apply Hid, deduplicatePosts_from_NoDup.
  - unfold deduplicatePosts. rewrite deduplicatePosts_from_app. f_equal.
    rewrite deduplicatePosts_from_union. f_equal.
    apply list_filter_iff. intros post. now rewrite elem_of_list_to_set.
Qed.

Lemma deduplicatePosts_idempotent_witness :
  deduplicatePosts [sample_post "a" "first"; sample_post "b" "second"]
  = [sample_post "a" "first"; sample_post "b" "second"].
Proof.
  destruct (deduplicatePosts_idempotent
              [sample_post "a" "first"; sample_post "b" "second"] []) as [Hid _].
  apply Hid. apply (bool_decide_unpack _). vm_compute. exact I.
Defined.

(** X16.  [findMatchedProduct] returns [null] exactly when the list holds
    no keyword of the taxonomy; otherwise it returns the first product, in
    the order of the taxonomy, one of whose keywords is in the list.  On the
    keywords matched for a post it returns [null] exactly when nothing
    matched. *)
Theorem findMatchedProduct_spec (matched : list string) :
  (findMatchedProduct matched = None
   <-> forall keyword, keyword ∈ all_keywords -> keyword ∉ matched)
  /\ (forall product,
        findMatchedProduct matched = Some product ->
        exists before keywords after,
          PRODUCT_KEYWORDS = before ++ (product, keywords) :: after
          /\ (exists keyword, keyword ∈ keywords /\ keyword ∈ matched)
          /\ (forall keyword,
                keyword ∈ concat (List.map snd before) -> keyword ∉ matched))
  /\ (forall post,
        findMatchedProduct (findMatchedKeywords post) = None
        <-> findMatchedKeywords post = []).
Proof.
  split; [apply findMatchedProduct_in_None |].
  split; [apply findMatchedProduct_in_Some |].
  intros post. unfold findMatchedProduct. rewrite findMatchedProduct_in_None. split.
  - intros Hnone. destruct (findMatchedKeywords post) as [| keyword rest] eqn:Hmatched;
      [reflexivity |].
    exfalso. apply (Hnone keyword); [| apply list_elem_of_here].
    assert (Hin : keyword ∈ findMatchedKeywords post)
      by (rewrite Hmatched; apply list_elem_of_here).
    unfold findMatchedKeywords, spread_Set in Hin.
    apply spread_Set_from_elem in Hin as [Hin _].
    rewrite match_products_spec, app_nil_l in Hin.
    apply list_elem_of_In, filter_In in Hin as [Hin _]. now apply list_elem_of_In.
  - intros -> keyword _. apply not_elem_of_nil.
Qed.

Lemma findMatchedProduct_spec_witness :
  findMatchedProduct ["serverless"%string] = None.
Proof.
  destruct (findMatchedProduct_spec ["serverless"%string]) as [[_ Hnone] _].
  apply Hnone. intros keyword Hin Hmatched.
  apply list_elem_of_singleton in Hmatched as ->.
  revert Hin. apply (bool_decide_unpack _). vm_compute. exact I.
Defined.

(** X17.  The intent filter and the keyword matching look at the text
    without regard to the case of its letters: two leads whose titles, and
    whose contents, are the same but for the case of some of the letters
    [A-Z], [a-z] get the same answer of [hasGenuineIntent], and two such
    posts the same matched keywords. *)
Theorem matching_ignores_case :
  (forall lead lead',
     equal_up_to_case (StoredLead.title lead) (StoredLead.title lead') = true ->
     equal_up_to_case (StoredLead.content lead) (StoredLead.content lead') = true ->
     hasGenuineIntent lead = hasGenuineIntent lead')
  /\ (forall post post',
        equal_up_to_case (RedditPost.title post) (RedditPost.title post') = true ->
        equal_up_to_case (RedditPost.content post) (RedditPost.content post') = true ->
        findMatchedKeywords post = findMatchedKeywords post').
Proof.
  split.
  - intros lead lead' Htitle Hcontent. unfold hasGenuineIntent.
    apply equal_up_to_case_lower in Htitle as [Htitle Htitle_length].
    apply equal_up_to_case_lower in Hcontent as [Hcontent Hcontent_length].
    rewrite !toLowerCase_app, Htitle, Hcontent, Htitle_length, Hcontent_length.
    reflexivity.
  - intros post post' Htitle Hcontent. unfold findMatchedKeywords.
    apply equal_up_to_case_lower in Htitle as [Htitle _].
    apply equal_up_to_case_lower in Hcontent as [Hcontent _].
    now rewrite !toLowerCase_app, Htitle, Hcontent.
Qed.

Lemma matching_ignores_case_witness :
  findMatchedKeywords (titled "Any SCREENSHOT API?" "Html To PDF")
  = findMatchedKeywords (titled "any screenshot api?" "html to pdf")
  /\ findMatchedKeywords (titled "Any SCREENSHOT API?" "Html To PDF")
     = ["screenshot api"; "html to pdf"]%string.
Proof.
  destruct matching_ignores_case as [_ Hposts].
  split; [| reflexivity].
  apply Hposts; reflexivity.
Defined.

End PostTheorems.

(** ** A collection run *)

Section Collected.
Import Executor Async JSString Collector Pipeline.

Context {W : Type}.
Variable request : RedditClient.t -> string -> M W RedditSearchResponse.
Variable URLSearchParams_toString : list (string * string) -> string.
Variable Number_toString : Z -> string.

Local Abbreviation search := (client_search request URLSearchParams_toString Number_toString).
Local Abbreviation endpoints_of := (keyword_endpoints URLSearchParams_toString Number_toString).

Lemma perform_app (client : RedditClient.t) (first second : list string) :
  forall w,
    perform request client (first ++ second) w
    = (fst (perform request client first w)
       ++ fst (perform request client second (snd (perform request client first w))),
       snd (perform request client second (snd (perform request client first w)))).
Proof.
  induction first as [| endpoint rest IH]; intros w.
  - cbn. now destruct (perform request client second w).
  - cbn [app perform]. destruct (request client endpoint w) as [o w'].
    rewrite IH. destruct (perform request client rest w') as [os w'']. reflexivity.
Qed.

Lemma request_each_perform (client : RedditClient.t) (query : string)
    (timeRange : RedditClient.TimeRange) (limit : Z) (subreddits : list string) :
  forall w,
    RedditClient.request_each (request client) URLSearchParams_toString Number_toString
      query timeRange limit subreddits w
    = perform request client
        (List.map (fun subreddit =>
                     RedditClient.search_endpoint URLSearchParams_toString Number_toString
                       query subreddit timeRange limit) subreddits) w.
Proof.
  induction subreddits as [| subreddit rest IH]; intros w; [reflexivity |].
  cbn [RedditClient.request_each List.map perform].
  destruct (request client _ w) as [o w']. now rewrite IH.
Qed.

(** One search of the collector: the requests of its keyword. *)
Lemma search_spec (client : RedditClient.t) (keyword : string) (w : W) :
  search client keyword MONITORED_SUBREDDITS
    {| RedditClient.timeRange := Some RedditClient.day;
       RedditClient.limit := Some 25%Z |} w
  = (Resolved (concat (List.map RedditClient.posts_of
                 (fst (perform request client (endpoints_of keyword) w)))),
     snd (perform request client (endpoints_of keyword) w)).
Proof.
  unfold client_search, RedditClient.search. cbn [RedditClient.timeRange RedditClient.limit default].
  rewrite search_loop_spec, request_each_perform. reflexivity.
Qed.

Lemma search_keywords_spec (client : RedditClient.t) (keywords : list string) :
  forall allPosts w,
    search_keywords search client keywords allPosts w
    = (Resolved (allPosts ++ concat (List.map RedditClient.posts_of
                   (fst (perform request client
                           (concat (List.map endpoints_of keywords)) w)))),
       snd (perform request client (concat (List.map endpoints_of keywords)) w)).
Proof.
  induction keywords as [| keyword rest IH]; intros allPosts w.
  - cbn. unfold mret, M_ret, ret. now rewrite app_nil_r.
  - cbn [search_keywords List.map concat].
    unfold mbind, M_bind, bind. rewrite search_spec, IH, perform_app.
    cbn [fst snd]. now rewrite List.map_app, concat_app, app_assoc.
Qed.

Lemma search_products_spec (client : RedditClient.t)
    (products : list (string * list string)) :
  forall allPosts w,
    search_products search client products allPosts w
    = (Resolved (allPosts ++ concat (List.map RedditClient.posts_of
                   (fst (perform request client
                           (concat (List.map endpoints_of
                                      (concat (List.map snd products)))) w)))),
       snd (perform request client
              (concat (List.map endpoints_of (concat (List.map snd products)))) w)).
Proof.
  induction products as [| [product keywords] rest IH]; intros allPosts w.
  - cbn. unfold mret, M_ret, ret. now rewrite app_nil_r.
  - cbn [search_products List.map concat snd].
    unfold mbind, M_bind, bind. rewrite search_keywords_spec, IH.
    rewrite List.map_app, concat_app, perform_app.
    cbn [fst snd]. now rewrite List.map_app, concat_app, app_assoc.
Qed.

Lemma perform_length (client : RedditClient.t) (endpoints : list string) :
  forall w, length (fst (perform request client endpoints w)) = length endpoints.
Proof.
  induction endpoints as [| endpoint rest IH]; intros w; [reflexivity |].
  cbn [perform]. destruct (request client endpoint w) as [o w'].
  specialize (IH w'). destruct (perform request client rest w') as [os w''].
  cbn in *. now rewrite IH.
Qed.

Lemma collect_spec (client : RedditClient.t) (now : Z) (w : W) :
  collect search client now w
  = (Resolved
       (List.filter hasGenuineIntent
          (List.map (transformToLead now)
             (deduplicatePosts
                (concat (List.map RedditClient.posts_of
                   (fst (perform request client
                           (run_endpoints URLSearchParams_toString Number_toString) w))))))),
     snd (perform request client
            (run_endpoints URLSearchParams_toString Number_toString) w)).
Proof.
  unfold collect, mbind, M_bind, bind. rewrite search_products_spec. reflexivity.
Qed.

End Collected.

Section Leads.
Import Executor Async JSString Collector Pipeline.

Lemma append_inj (prefix a b : string) : prefix +:+ a = prefix +:+ b -> a = b.
Proof.
  induction prefix as [| c prefix IH]; [trivial |].
  rewrite !append_cons. intros [= Heq]. now apply IH.
Qed.

(** The leads of a batch of posts, as [collect] makes them. *)
Lemma leads_from_posts (now : Z) (posts : list RedditPost.t) (lead : StoredLead.t) :
  lead ∈ List.filter hasGenuineIntent (List.map (transformToLead now) posts)
  <-> hasGenuineIntent lead = true
      /\ exists post, post ∈ posts /\ lead = transformToLead now post.
Proof.
  rewrite list_elem_of_In, filter_In, in_map_iff. split.
  - intros [(post & <- & Hin) Hgenuine]. split; [exact Hgenuine |].
    exists post. split; [now apply list_elem_of_In | reflexivity].
  - intros [Hgenuine (post & Hin & ->)]. split; [| exact Hgenuine].
    exists post. split; [reflexivity | now apply list_elem_of_In].
Qed.

Lemma leads_sourceId_NoDup (now : Z) (posts : list RedditPost.t) :
  NoDup (RedditPost.id <$> posts) ->
  NoDup (StoredLead.sourceId
           <$> List.filter hasGenuineIntent (List.map (transformToLead now) posts)).
Proof.
  induction posts as [| post rest IH]; intros Hnodup; cbn; [constructor |].
  rewrite fmap_cons in Hnodup. apply NoDup_cons in Hnodup as [Hhead Hrest].
  destruct (hasGenuineIntent (transformToLead now post)); [| now apply IH].
  rewrite fmap_cons. apply NoDup_cons. split; [| now apply IH].
  intros Hin. apply Hhead.
  apply list_elem_of_fmap in Hin as (lead & Hid & Hlead).
  apply leads_from_posts in Hlead as [_ (other & Hother & ->)].
  cbn in Hid. rewrite Hid. now apply list_elem_of_fmap_2.
Qed.

Lemma leads_id (now : Z) (posts : list RedditPost.t) :
  StoredLead.id <$> List.filter hasGenuineIntent (List.map (transformToLead now) posts)
  = String.append "reddit_"
      <$> (StoredLead.sourceId
             <$> List.filter hasGenuineIntent (List.map (transformToLead now) posts)).
Proof.
  induction posts as [| post rest IH]; [reflexivity |]. cbn.
  destruct (hasGenuineIntent (transformToLead now post)); [| exact IH].
  rewrite !fmap_cons, IH. reflexivity.
Qed.

Lemma posts_of_rejected (outcomes : list (Outcome RedditSearchResponse)) :
  (forall o, o ∈ outcomes -> exists error, o = Rejected error) ->
  concat (List.map RedditClient.posts_of outcomes) = [].
Proof.
  induction outcomes as [| o rest IH]; intros Hall; [reflexivity |]. cbn.
  destruct (Hall o (list_elem_of_here _ _)) as [error ->]. cbn.
  apply IH. intros o' Hin. apply Hall. now right.
Qed.

Lemma perform_offline (client : RedditClient.t) (endpoints : list string) :
  forall w o,
    o ∈ fst (perform offline client endpoints w) ->
    exists error, o = Rejected error.
Proof.
  induction endpoints as [| endpoint rest IH]; intros w o Hin; cbn in Hin.
  - now apply elem_of_nil in Hin.
  - destruct (perform offline client rest w) as [os w'] eqn:Hrest. cbn in Hin.
    apply elem_of_cons in Hin as [-> | Hin]; [eexists; reflexivity |].
    apply (IH w o). now rewrite Hrest.
Qed.

Lemma truthy_None (env : RedditClient.Env) (name : string) :
  RedditClient.truthy (env !! name) = None <-> RedditClient.missing env name.
Proof.
  unfold RedditClient.missing, RedditClient.truthy.
  destruct (env !! name) as [v |]; [| tauto].
  destruct (String.eqb_spec v "") as [-> | Hne]; [tauto |].
  split; [discriminate |]. intros [Hnone | [= Hempty]]; [discriminate | contradiction].
Qed.

End Leads.

Section RunTheorems.
Import Executor Async JSString Collector Pipeline.

(** X18.  A run of [collect] never rejects, whatever its requests do.  It
    makes exactly 300 requests, one for each of the 25 keywords, in the
    order of the taxonomy, in each of the 12 monitored subreddits, each with
    [t=day] and [limit=25], and every one is made whatever became of the
    earlier ones.  Its result is computed from the listings that arrived:
    their posts in order, deduplicated, turned into leads and filtered. *)
Theorem collect_runs_every_search
    (W : Type) (request : RedditClient.t -> string -> M W RedditSearchResponse)
    (URLSearchParams_toString : list (string * string) -> string)
    (Number_toString : Z -> string)
    (client : RedditClient.t) (now : Z) (w : W) :
  let endpoints := run_endpoints URLSearchParams_toString Number_toString in
  let requests := perform request client endpoints w in
  collect (client_search request URLSearchParams_toString Number_toString) client now w
  = (Resolved
       (List.filter hasGenuineIntent
          (List.map (transformToLead now)
             (deduplicatePosts
                (concat (List.map RedditClient.posts_of (fst requests)))))),
     snd requests)
  /\ length endpoints = 300%nat
  /\ length (fst requests) = 300%nat.
Proof.
  intros endpoints requests. split; [apply collect_spec |].
  assert (Hlength : length endpoints = 300%nat) by reflexivity.
  split; [exact Hlength |].
  unfold requests. now rewrite perform_length.
Qed.

(** X19.  The leads of a run: each one passes [hasGenuineIntent] and is the
    lead of a post that one of the run's requests returned; no two of them
    have the same source id, nor the same id; and when every request of the
    run fails there is none. *)
Theorem collect_leads
    (W : Type) (request : RedditClient.t -> string -> M W RedditSearchResponse)
    (URLSearchParams_toString : list (string * string) -> string)
    (Number_toString : Z -> string)
    (client : RedditClient.t) (now : Z) (w : W) :
  let requests :=
    perform request client (run_endpoints URLSearchParams_toString Number_toString) w in
  exists leads,
    fst (collect (client_search request URLSearchParams_toString Number_toString)
           client now w)
    = Resolved leads
    /\ (forall lead, lead ∈ leads ->
          hasGenuineIntent lead = true
          /\ exists o post,
               o ∈ fst requests /\ post ∈ RedditClient.posts_of o
               /\ lead = transformToLead now post)
    /\ NoDup (StoredLead.sourceId <$> leads)
    /\ NoDup (StoredLead.id <$> leads)
    /\ ((forall o, o ∈ fst requests -> exists error, o = Rejected error) -> leads = []).
Proof.
  intros requests. rewrite collect_spec. fold requests. cbn [fst].
  eexists. split; [reflexivity |].
  assert (Hsource :
    NoDup (StoredLead.sourceId
             <$> List.filter hasGenuineIntent
                   (List.map (transformToLead now)
                      (deduplicatePosts
                         (concat (List.map RedditClient.posts_of (fst requests))))))).
  { apply leads_sourceId_NoDup, deduplicatePosts_from_NoDup. }
  split; [| split; [exact Hsource | split]].
  - intros lead Hlead.
    apply leads_from_posts in Hlead as [Hgenuine (post & Hpost & ->)].
    split; [exact Hgenuine |].
    apply (fun H => elem_of_sublist _ _ _ H (deduplicatePosts_from_sublist _ ∅)) in Hpost.
    apply list_elem_of_In, in_concat in Hpost as (posts & Hposts & Hin).
    apply in_map_iff in Hposts as (o & <- & Ho).
    exists o, post. now rewrite !list_elem_of_In.
  - rewrite leads_id. apply NoDup_fmap_2_strong; [| exact Hsource].
    intros a b _ _. apply append_inj.
  - intros Hfailed. now rewrite posts_of_rejected.
Qed.

Lemma collect_leads_witness :
  exists leads,
    fst (collect (client_search offline no_encoding Transport.decimal)
           Transport.fresh_client 0 tt)
    = Resolved leads
    /\ leads = [].
Proof.
  destruct (collect_leads unit offline no_encoding Transport.decimal
              Transport.fresh_client 0 tt)
    as (leads & Hcollect & _ & _ & _ & Hfailed).
  exists leads. split; [exact Hcollect |].
  apply Hfailed. intros o Ho. exact (perform_offline _ _ _ _ Ho).
Defined.

(** X20.  A run of [runCollection] with the client's own [search] rejects
    in one case only: the client id or the client secret is missing from
    the environment.  Failed requests, the exchange of the credentials
    among them, do not make it reject. *)
Theorem runCollection_rejects_only_without_credentials
    (W : Type) (request : RedditClient.t -> string -> M W RedditSearchResponse)
    (URLSearchParams_toString : list (string * string) -> string)
    (Number_toString : Z -> string)
    (env : RedditClient.Env) (now : Z) (w : W) :
  (exists error,
     fst (runCollection (client_search request URLSearchParams_toString Number_toString)
            env now w)
     = Rejected error)
  <-> RedditClient.missing env "REDDIT_CLIENT_ID"
      \/ RedditClient.missing env "REDDIT_CLIENT_SECRET".
Proof.
  rewrite <- !truthy_None. unfold runCollection, RedditClient.createRedditClient.
  destruct (RedditClient.truthy (env !! "REDDIT_CLIENT_ID")) as [id |];
    [destruct (RedditClient.truthy (env !! "REDDIT_CLIENT_SECRET")) as [secret |] |].
  - rewrite collect_spec. cbn [fst]. split.
    + intros [error Habs]. discriminate.
    + intros [Habs | Habs]; discriminate.
  - split; [intros _; now right |]. intros _. eexists. reflexivity.
  - split; [intros _; now left |]. intros _. eexists. reflexivity.
Qed.

End RunTheorems.
